(** * KNeighborsClassifier: a shallow embedding and its verified properties

    The source is the class [KNeighborsClassifier] of
    [algorithms/Classification/KNeighborsClassifier.ipynb]:
    [__init__], [_most_common_], [_calculate_distance_], [fit], [predict]
    and [evaluate].

    Modelling conventions.
    - Feature values are exact rationals ([Q]); rounding, overflow and
      infinities of float64 are not modelled.  The one irrational operation,
      [np.sqrt], is kept symbolic (constructor [Sqrt]) and scalars are
      compared as the real numbers they denote ([scalar_leb_denote]);
      [0/0] is [NaN], which sorts last.
    - Labels are integers ([Z]); the training labels and the true labels
      given to [evaluate] are integer arrays.
    - A Python exception is a value of [exn]; every method returns a
      [result].  An attribute that was never assigned is [None] in the
      record and reading it raises [AttributeError].
    - NumPy calls are modelled by their documented behaviour (NumPy 1.25
      and later): [np.array] rejects ragged rows, [np.bincount] rejects
      negative values and arrays that are not one-dimensional, [argmax]
      returns the first index of the maximum, slicing clamps, fancy
      indexing checks bounds, [==] broadcasts a length-one operand and
      rejects other length mismatches.
      [np.argsort] is called with its default [kind]; NumPy documents that
      it returns indices that sort the array and, for that kind, promises
      no order among equal values, so [predict] takes the sorting function
      as a parameter and the theorems hold for every function meeting
      that contract ([sorts]). *)

From Stdlib Require Import Reals Qreals Lra.
From Stdlib Require Import List ZArith QArith Qabs String Bool Lia Lqa Arith.
From Stdlib Require Import Permutation Sorted.
Import ListNotations.

Local Open Scope Z_scope.

(** ** Exceptions and results *)

Inductive value_error : Type :=
| Inhomogeneous      (* np.array: rows of different lengths *)
| NegativeElements   (* np.bincount: a negative element *)
| TooDeep            (* np.bincount: array is not one-dimensional *)
| EmptyArgmax        (* argmax of an empty sequence *)
| EmptyReduction     (* np.max of a zero-size array *)
| Broadcast.         (* operands could not be broadcast together *)

Inductive exn : Type :=
| AttributeError (attr : string)
| TypeError
| IndexError
| ValueError (why : value_error).

Inductive result (A : Type) : Type :=
| Ok (a : A)
| Raise (e : exn).

Arguments Ok {A} a.
Arguments Raise {A} e.

Definition bind {A B : Type} (r : result A) (f : A -> result B) : result B :=
  match r with
  | Ok a => f a
  | Raise e => Raise e
  end.

Notation "x <- c1 ;; c2" := (bind c1 (fun x => c2))
  (at level 61, c1 at next level, right associativity).

(** A list comprehension whose body may raise: the first exception ends it. *)
Fixpoint mapM {A B : Type} (f : A -> result B) (l : list A) : result (list B) :=
  match l with
  | [] => Ok []
  | a :: l' => b <- f a ;; bs <- mapM f l' ;; Ok (b :: bs)
  end.

Definition getattr {A : Type} (name : string) (field : option A) : result A :=
  match field with
  | Some v => Ok v
  | None => Raise (AttributeError name)
  end.

Definition failed {A : Type} (r : result A) : Prop :=
  exists e, r = Raise e.

(** ** Scalars: the values a distance can take *)

Inductive scalar : Type :=
| Sqrt (q : Q)   (* the square root of a non-negative rational *)
| Real (q : Q)
| NaN.

(** [np.sqrt]: nan below zero. *)
Definition np_sqrt (q : Q) : scalar :=
  if Qle_bool 0 q then Sqrt q else NaN.

(** Order of the denoted real numbers.  [x |-> sign x * x^2] is strictly
    increasing, so two scalars compare as their signed squares do; the
    signed square of [Sqrt q] is [q].  NaN has no key: sorting puts it
    last. *)
Definition signed_square (q : Q) : Q :=
  (if Qle_bool 0 q then q * q else - (q * q))%Q.

Definition key (s : scalar) : option Q :=
  match s with
  | Sqrt q => Some q
  | Real q => Some (signed_square q)
  | NaN => None
  end.

Definition scalar_leb (x y : scalar) : bool :=
  match key x, key y with
  | _, None => true
  | None, Some _ => false
  | Some a, Some b => Qle_bool a b
  end.

Definition scalar_ltb (x y : scalar) : bool := negb (scalar_leb y x).

(** ** Element-wise operations on rows of a two-dimensional array *)

Definition vector := list Q.

Fixpoint zip_with {A B C : Type} (f : A -> B -> C) (a : list A) (b : list B) : list C :=
  match a, b with
  | x :: a', y :: b' => f x y :: zip_with f a' b'
  | _, _ => []
  end.

Definition vsub (a b : vector) : vector := zip_with Qminus a b.
Definition vsquare (a : vector) : vector := map (fun x => x * x)%Q a.
Definition vabs (a : vector) : vector := map Qabs a.
Definition vne (a b : vector) : list bool := zip_with (fun x y => negb (Qeq_bool x y)) a b.

Definition np_sum (a : vector) : Q := fold_right Qplus 0%Q a.

Definition count_true (a : list bool) : nat := List.length (filter (fun b => b) a).

Definition Qmax_bool (a b : Q) : Q := if Qle_bool a b then b else a.

(** [np.max]: raises on a zero-size array. *)
Definition np_max (a : vector) : result Q :=
  match a with
  | [] => Raise (ValueError EmptyReduction)
  | x :: a' => Ok (fold_left Qmax_bool a' x)
  end.

(** [count / n] for a count and a length: float division, nan for [0/0]. *)
Definition true_divide (c n : nat) : scalar :=
  match n with
  | O => NaN
  | S _ => Real (Z.of_nat c # Pos.of_nat n)
  end.

(** [np.array([x, x_train])]: a [(2, n_features)] array, kept as its
    [n_features] columns, so that both rows have one length by
    construction; rows of different lengths are rejected. *)
Definition points := list (Q * Q).

Definition row0 (pts : points) : vector := map fst pts.
Definition row1 (pts : points) : vector := map snd pts.

Definition np_array2 (x x_train : vector) : result points :=
  if Nat.eqb (List.length x) (List.length x_train)
  then Ok (combine x x_train)
  else Raise (ValueError Inhomogeneous).

(** ** The classifier object *)

Record KNeighborsClassifier : Type := {
  k : Z;
  dist_metric : string;
  X_train : option (list vector);
  y_train : option (list Z)
}.

Definition __init__ (k0 : Z) (dist_metric0 : string) : result KNeighborsClassifier :=
  Ok {| k := k0; dist_metric := dist_metric0; X_train := None; y_train := None |}.

(** Default arguments of the constructor. *)
Definition default_k : Z := 5.

(** What [_calculate_distance_] returns: a scalar, an array (the
    'manhattan' branch) or [None] (no branch taken). *)
Inductive distance : Type :=
| DScalar (s : scalar)
| DVector (v : vector)
| DNone.

Definition _calculate_distance_ (self : KNeighborsClassifier) (pts : points)
  : result distance :=
  if String.eqb (dist_metric self) "euclidean" then
    Ok (DScalar (np_sqrt (np_sum (vsquare (vsub (row0 pts) (row1 pts))))))
  else if String.eqb (dist_metric self) "manhattan" then
    Ok (DVector (vabs (vsub (row0 pts) (row1 pts))))
  else if String.eqb (dist_metric self) "chebychev" then
    m <- np_max (vabs (vsub (row0 pts) (row1 pts))) ;; Ok (DScalar (Real m))
  else if String.eqb (dist_metric self) "hemming" then
    Ok (DScalar (true_divide (count_true (vne (row0 pts) (row1 pts)))
                             (List.length (row0 pts))))
  else
    Ok DNone.

Definition fit (self : KNeighborsClassifier) (X : list vector) (y : list Z)
  : result KNeighborsClassifier :=
  Ok {| k := k self; dist_metric := dist_metric self;
        X_train := Some X; y_train := Some y |}.

(** ** Majority vote: [np.bincount(arr).argmax()] *)

(** A NumPy array of one or two dimensions. *)
Inductive ndarray (A : Type) : Type :=
| Arr1 (l : list A)
| Arr2 (rows : list (list A)).

Arguments Arr1 {A} l.
Arguments Arr2 {A} rows.

Definition count (v : Z) (arr : list Z) : nat := count_occ Z.eq_dec arr v.

Definition amax (arr : list Z) : Z := fold_right Z.max 0 arr.

(** [np.bincount] on a one-dimensional integer array: the number of
    occurrences of each value [0 .. max arr]. *)
Definition np_bincount (arr : list Z) : result (list nat) :=
  match arr with
  | [] => Ok []
  | _ =>
      if existsb (fun v => v <? 0) arr then Raise (ValueError NegativeElements)
      else Ok (map (fun v => count (Z.of_nat v) arr)
                   (seq 0 (S (Z.to_nat (amax arr)))))
  end.

(** Scan for the first index of the maximum: [best] at [best_i] so far,
    [i] the index of the head of the rest. *)
Fixpoint argmax_from (best_i best i : nat) (l : list nat) : nat :=
  match l with
  | [] => best_i
  | c :: l' =>
      if Nat.ltb best c then argmax_from i c (S i) l'
      else argmax_from best_i best (S i) l'
  end.

Definition argmax (l : list nat) : result nat :=
  match l with
  | [] => Raise (ValueError EmptyArgmax)
  | c :: l' => Ok (argmax_from 0 c 1 l')
  end.

Definition _most_common_ (arr : ndarray Z) : result Z :=
  match arr with
  | Arr2 _ => Raise (ValueError TooDeep)
  | Arr1 l =>
      counts <- np_bincount l ;;
      i <- argmax counts ;;
      Ok (Z.of_nat i)
  end.

(** ** The array of distances and its ordering *)

(** [np.array([...])] over the distances to every training point. *)
Inductive dist_array : Type :=
| Scalars (l : list scalar)      (* shape (n_train,) *)
| Rows (rows : list vector)      (* shape (n_train, n_features) *)
| Nones (n : nat).               (* object array holding n times None *)

Fixpoint all_scalars (ds : list distance) : option (list scalar) :=
  match ds with
  | [] => Some []
  | DScalar s :: ds' => option_map (cons s) (all_scalars ds')
  | _ => None
  end.

Fixpoint all_vectors (ds : list distance) : option (list vector) :=
  match ds with
  | [] => Some []
  | DVector v :: ds' => option_map (cons v) (all_vectors ds')
  | _ => None
  end.

Fixpoint all_none (ds : list distance) : bool :=
  match ds with
  | [] => true
  | DNone :: ds' => all_none ds'
  | _ => false
  end.

Definition same_lengths (rows : list vector) : bool :=
  match rows with
  | [] => true
  | r :: rows' => forallb (fun r' => Nat.eqb (List.length r') (List.length r)) rows'
  end.

(** One classifier computes every distance with one metric, so the list is
    all scalars, all rows or all [None]; anything else has no regular
    shape. *)
Definition np_array (ds : list distance) : result dist_array :=
  match all_scalars ds with
  | Some l => Ok (Scalars l)
  | None =>
      match all_vectors ds with
      | Some rows =>
          if same_lengths rows then Ok (Rows rows)
          else Raise (ValueError Inhomogeneous)
      | None =>
          if all_none ds then Ok (Nones (List.length ds))
          else Raise (ValueError Inhomogeneous)
      end
  end.

(** [d[i] <= d[j]] in the order used by sorting. *)
Definition dist_le (d : list scalar) (i j : nat) : Prop :=
  scalar_leb (nth i d NaN) (nth j d NaN) = true.

(** The contract of [np.argsort] on a one-dimensional array: the indices
    [0 .. len d - 1], each once, in an order that sorts [d]. *)
Definition sorter : Type := list scalar -> list nat.

Definition sorts (argsort : sorter) : Prop :=
  forall d, Permutation (argsort d) (seq 0 (List.length d))
            /\ StronglySorted (dist_le d) (argsort d).

(** [np.argsort] sorts along the last axis; comparing two [None] raises,
    which an array of fewer than two elements never does. *)
Definition np_argsort (argsort : sorter) (d : dist_array) : result (ndarray nat) :=
  match d with
  | Scalars l => Ok (Arr1 (argsort l))
  | Rows rows => Ok (Arr2 (map (fun r => argsort (map Real r)) rows))
  | Nones n => if Nat.leb n 1 then Ok (Arr1 (seq 0 n)) else Raise TypeError
  end.

(** [a[:k]]: the first [k] items, all but the last [-k] when [k] is
    negative; never out of range. *)
Definition slice_to {A : Type} (k0 : Z) (l : list A) : list A :=
  if k0 <? 0 then firstn (Z.to_nat (Z.of_nat (List.length l) + k0)) l
  else firstn (Z.to_nat k0) l.

Definition slice_rows {A : Type} (k0 : Z) (a : ndarray A) : ndarray A :=
  match a with
  | Arr1 l => Arr1 (slice_to k0 l)
  | Arr2 rows => Arr2 (slice_to k0 rows)
  end.

(** [y[idx]] with an integer index array: bounds are checked. *)
Definition item (y : list Z) (i : nat) : result Z :=
  match nth_error y i with
  | Some v => Ok v
  | None => Raise IndexError
  end.

Definition take (y : list Z) (idx : ndarray nat) : result (ndarray Z) :=
  match idx with
  | Arr1 l => r <- mapM (item y) l ;; Ok (Arr1 r)
  | Arr2 rows => r <- mapM (mapM (item y)) rows ;; Ok (Arr2 r)
  end.

(** ** predict and evaluate *)

(** [self._calculate_distance_(np.array([x, x_train]))]: the body of the
    list comprehension in [predict]. *)
Definition distance_between (self : KNeighborsClassifier) (x x_train : vector)
  : result distance :=
  pts <- np_array2 x x_train ;;
  _calculate_distance_ self pts.

(** The array [distances] of one iteration of the loop in [predict]. *)
Definition distances (self : KNeighborsClassifier) (x : vector) : result dist_array :=
  Xt <- getattr "X_train" (X_train self) ;;
  ds <- mapM (distance_between self x) Xt ;;
  np_array ds.

Section Predict.

Variable argsort : sorter.

(** The variable [k_nearest] of one iteration. *)
Definition k_nearest (self : KNeighborsClassifier) (x : vector) : result (ndarray nat) :=
  d <- distances self x ;;
  order <- np_argsort argsort d ;;
  Ok (slice_rows (k self) order).

(** One iteration of the loop: the prediction appended for [x]. *)
Definition predict_one (self : KNeighborsClassifier) (x : vector) : result Z :=
  nearest <- k_nearest self x ;;
  yt <- getattr "y_train" (y_train self) ;;
  y_sorted <- take yt nearest ;;
  _most_common_ y_sorted.

Fixpoint predict (self : KNeighborsClassifier) (X : list vector) : result (list Z) :=
  match X with
  | [] => Ok []
  | x :: X' =>
      p <- predict_one self x ;;
      ps <- predict self X' ;;
      Ok (p :: ps)
  end.

(** [predictions == y] between a list and an array: element-wise, a
    length-one operand is broadcast, other length mismatches raise. *)
Definition eq_broadcast (p y : list Z) : result (list bool) :=
  if Nat.eqb (List.length p) (List.length y) then Ok (zip_with Z.eqb p y)
  else if Nat.eqb (List.length p) 1 then Ok (map (Z.eqb (hd 0 p)) y)
  else if Nat.eqb (List.length y) 1 then Ok (map (fun v => Z.eqb v (hd 0 y)) p)
  else Raise (ValueError Broadcast).

Definition evaluate (self : KNeighborsClassifier) (X : list vector) (y : list Z)
  : result scalar :=
  ps <- predict self X ;;
  hits <- eq_broadcast ps y ;;
  Ok (true_divide (count_true hits) (List.length y)).

End Predict.

(** ** Two sorters

    Both order the indices by insertion; they differ only in how equal
    values are ordered: [stable_sorter] keeps the lower index first (what
    [kind='stable'] gives), [reversing_sorter] puts the higher index
    first.  Both meet the contract of [np.argsort]
    ([stable_argsort_sorts], [reversing_argsort_sorts]). *)

Section InsertionSort.

Variable le : nat -> nat -> bool.

Fixpoint insert (i : nat) (l : list nat) : list nat :=
  match l with
  | [] => [i]
  | j :: l' => if le i j then i :: l else j :: insert i l'
  end.

Definition isort (l : list nat) : list nat := fold_right insert [] l.

End InsertionSort.

Definition stable_le (d : list scalar) (i j : nat) : bool :=
  scalar_ltb (nth i d NaN) (nth j d NaN)
  || (scalar_leb (nth i d NaN) (nth j d NaN) && Nat.leb i j).

Definition reversing_le (d : list scalar) (i j : nat) : bool :=
  scalar_ltb (nth i d NaN) (nth j d NaN)
  || (scalar_leb (nth i d NaN) (nth j d NaN) && Nat.leb j i).

Definition stable_argsort (d : list scalar) : list nat :=
  isort (stable_le d) (seq 0 (List.length d)).

Definition reversing_argsort (d : list scalar) : list nat :=
  isort (reversing_le d) (seq 0 (List.length d)).

(** ** The real numbers behind the scalars

    [denote] gives the real number a scalar stands for, [real_valued] says
    that a symbolic square root has a non-negative argument (as every
    scalar built by [np_sqrt] has). *)

Definition denote (s : scalar) : option R :=
  match s with
  | Sqrt q => Some (sqrt (Q2R q))
  | Real q => Some (Q2R q)
  | NaN => None
  end.

Definition real_valued (s : scalar) : Prop :=
  match s with
  | Sqrt q => (0 <= q)%Q
  | _ => True
  end.

Definition signed_square_R (r : R) : R :=
  if Rle_dec 0 r then (r * r)%R else (- (r * r))%R.

(** ** Vocabulary of the specification *)

(** The metric names of the specification, and the names the code tests
    for (two of them are spelled differently). *)
Definition spec_metrics : list string :=
  ["euclidean"; "manhattan"; "chebyshev"; "hamming"]%string.

Definition code_metrics : list string :=
  ["euclidean"; "manhattan"; "chebychev"; "hemming"]%string.

(** The Manhattan distance as the specification words it: the scalar sum
    of the element-wise absolute differences. *)
Definition manhattan_sum (a b : vector) : scalar :=
  Real (np_sum (vabs (vsub a b))).


Definition fitted_on (self : KNeighborsClassifier) (Xt : list vector) (yt : list Z) : Prop :=
  X_train self = Some Xt /\ y_train self = Some yt.

(** A dataset of the data model: as many labels as feature vectors, one
    dimensionality [n], labels that are non-negative integers. *)
Record valid_dataset (Xt : list vector) (yt : list Z) (n : nat) : Prop := {
  vd_lengths : List.length Xt = List.length yt;
  vd_dims : Forall (fun t => List.length t = n) Xt;
  vd_labels : Forall (fun v => 0 <= v) yt
}.

(** The metric names for which the code returns a scalar on vectors of
    [n] features ([np.max] needs at least one feature). *)
Definition scalar_metric (m : string) (n : nat) : Prop :=
  m = "euclidean"%string \/ (m = "chebychev"%string /\ n <> O) \/ m = "hemming"%string.


(** An accuracy of exactly one. *)
Definition is_one (r : result scalar) : Prop :=
  exists q, r = Ok (Real q) /\ (q == 1)%Q.

(** The order of a stable sort: by value, equal values by index. *)
Definition index_stable (argsort : sorter) : Prop :=
  forall d, StronglySorted (fun i j => stable_le d i j = true) (argsort d).

(** ** Concrete scenarios *)

(** A classifier with the given configuration, fitted on [X] and [y]. *)
Definition fitted (k0 : Z) (m : string) (X : list vector) (y : list Z)
  : KNeighborsClassifier :=
  {| k := k0; dist_metric := m; X_train := Some X; y_train := Some y |}.

(** Five points on a line, the first two labelled 0, the others 1. *)
Definition line_X : list vector := [[0]; [1]; [2]; [3]; [10]]%Q.
Definition line_y : list Z := [0; 0; 1; 1; 1].

(** Two far-apart points in the plane with labels 0 and 1. *)
Definition plane_X : list vector := [[0; 0]; [10; 10]]%Q.
Definition plane_y : list Z := [0; 1].

(** Two points at the same distance from the origin. *)
Definition tie_X : list vector := [[-1]; [1]]%Q.
Definition tie_y : list Z := [0; 1].


(** ** The experiment of the notebook: repeated fit and evaluate

    The last code cell builds one classifier with the 'euclidean' metric
    and the default k and, [n_tests] times, draws a random split of the
    data with [train_test_split], fits the classifier on the training part
    and appends the accuracy on the test part to [accuracies].  The splits
    drawn are an input of the run: one [split] per iteration. *)

Record split : Type := {
  s_X_train : list vector;
  s_X_test : list vector;
  s_y_train : list Z;
  s_y_test : list Z
}.

Section Experiment.

Variable argsort : sorter.

(** The loop, from a state [(model, accuracies)]: the same object is
    fitted again in every iteration. *)
Fixpoint run_tests (model : KNeighborsClassifier) (accuracies : list scalar)
         (splits : list split) : result (KNeighborsClassifier * list scalar) :=
  match splits with
  | [] => Ok (model, accuracies)
  | s :: rest =>
      model' <- fit model (s_X_train s) (s_y_train s) ;;
      accuracy <- evaluate argsort model' (s_X_test s) (s_y_test s) ;;
      run_tests model' (accuracies ++ [accuracy]) rest
  end.

Definition experiment (splits : list split)
  : result (KNeighborsClassifier * list scalar) :=
  model <- __init__ default_k "euclidean" ;;
  run_tests model [] splits.

(** One trial on its own: a fresh classifier fitted on the training part
    and evaluated on the test part. *)
Definition trial (s : split) : result scalar :=
  evaluate argsort (fitted default_k "euclidean" (s_X_train s) (s_y_train s))
           (s_X_test s) (s_y_test s).

End Experiment.

(** ** More vocabulary *)

(** Two scalars denote the same number. *)
Definition scalar_equiv (x y : scalar) : Prop :=
  scalar_leb x y = true /\ scalar_leb y x = true.

(** The same classifier with another k. *)
Definition with_k (self : KNeighborsClassifier) (k0 : Z) : KNeighborsClassifier :=
  {| k := k0; dist_metric := dist_metric self;
     X_train := X_train self; y_train := y_train self |}.

(** The distances from a query to the training points are pairwise
    different. *)
Definition no_ties (d : list scalar) : Prop :=
  forall i j, (i < List.length d)%nat -> (j < List.length d)%nat ->
              dist_le d i j -> dist_le d j i -> i = j.

(** A split the classifier can be fitted on and evaluated with: a non-empty
    training part that is a dataset of the data model, and a non-empty
    test part of the same dimensionality with one label per query. *)
Definition usable_split (s : split) : Prop :=
  exists n,
    valid_dataset (s_X_train s) (s_y_train s) n
    /\ s_X_train s <> []
    /\ Forall (fun x => List.length x = n) (s_X_test s)
    /\ List.length (s_X_test s) = List.length (s_y_test s)
    /\ s_y_test s <> [].

(** ** The order on scalars is a total preorder *)

Lemma scalar_leb_refl (x : scalar) : scalar_leb x x = true.
Proof.
  unfold scalar_leb. destruct (key x) as [a|]; [|reflexivity].
  apply Qle_bool_iff. apply Qle_refl.
Qed.

Lemma scalar_leb_total (x y : scalar) :
  scalar_leb x y = true \/ scalar_leb y x = true.
Proof.
  unfold scalar_leb. destruct (key x) as [a|], (key y) as [b|]; auto.
  destruct (Qlt_le_dec a b) as [H|H].
  - left. apply Qle_bool_iff. apply Qlt_le_weak. exact H.
  - right. apply Qle_bool_iff. exact H.
Qed.

Lemma scalar_leb_trans (x y z : scalar) :
  scalar_leb x y = true -> scalar_leb y z = true -> scalar_leb x z = true.
Proof.
  unfold scalar_leb.
  destruct (key x) as [a|], (key y) as [b|], (key z) as [c|]; auto; try discriminate.
  rewrite !Qle_bool_iff. apply Qle_trans.
Qed.

Lemma scalar_ltb_leb (x y : scalar) : scalar_ltb x y = true -> scalar_leb x y = true.
Proof.
  unfold scalar_ltb. intros H. apply negb_true_iff in H.
  destruct (scalar_leb_total x y) as [E|E]; [exact E | congruence].
Qed.

(** ** The order on scalars is the order of the reals they denote *)

Lemma signed_square_R_mono (a b : R) :
  (a <= b)%R <-> (signed_square_R a <= signed_square_R b)%R.
Proof.
  unfold signed_square_R.
  destruct (Rle_dec 0 a), (Rle_dec 0 b); split; intros H; Lra.nra.
Qed.

Lemma key_denote (s : scalar) (r : R) (a : Q) :
  real_valued s -> denote s = Some r -> key s = Some a -> Q2R a = signed_square_R r.
Proof.
  destruct s as [q|q|]; simpl; intros Hp Hd Hk; try discriminate.
  - injection Hd as <-. injection Hk as <-.
    unfold signed_square_R.
    assert (H0 : (0 <= Q2R q)%R).
    { replace 0%R with (Q2R 0) by (unfold Q2R; simpl; Lra.lra). apply Qle_Rle. exact Hp. }
    destruct (Rle_dec 0 (sqrt (Q2R q))) as [_|Hn].
    + symmetry. apply sqrt_sqrt. exact H0.
    + exfalso. apply Hn. apply sqrt_pos.
  - injection Hd as <-. injection Hk as <-.
    unfold signed_square, signed_square_R.
    assert (H0 : Q2R 0 = 0%R) by (unfold Q2R; simpl; Lra.lra).
    destruct (Qle_bool 0 q) eqn:E.
    + apply Qle_bool_iff in E. apply Qle_Rle in E. rewrite H0 in E.
      destruct (Rle_dec 0 (Q2R q)); [|contradiction].
      apply Q2R_mult.
    + destruct (Rle_dec 0 (Q2R q)) as [Hr|_].
      * rewrite <- H0 in Hr. apply Rle_Qle in Hr. apply Qle_bool_iff in Hr. congruence.
      * rewrite Q2R_opp, Q2R_mult. reflexivity.
Qed.

(** [scalar_leb] decides [<=] on the denoted reals. *)
Lemma scalar_leb_denote (x y : scalar) (rx ry : R) :
  real_valued x -> real_valued y ->
  denote x = Some rx -> denote y = Some ry ->
  (scalar_leb x y = true <-> (rx <= ry)%R).
Proof.
  intros Hpx Hpy Hx Hy.
  destruct (key x) as [a|] eqn:Ka; [|destruct x; discriminate].
  destruct (key y) as [b|] eqn:Kb; [|destruct y; discriminate].
  unfold scalar_leb. rewrite Ka, Kb.
  rewrite Qle_bool_iff.
  rewrite (signed_square_R_mono rx ry).
  rewrite <- (key_denote x rx a Hpx Hx Ka), <- (key_denote y ry b Hpy Hy Kb).
  split; [apply Qle_Rle | apply Rle_Qle].
Qed.

(** ** Insertion sort orders any total, transitive comparison *)

Section InsertionSortFacts.

Variable le : nat -> nat -> bool.
Hypothesis le_total : forall i j, le i j = true \/ le j i = true.
Hypothesis le_trans : forall i j m, le i j = true -> le j m = true -> le i m = true.

Lemma insert_perm (i : nat) (l : list nat) : Permutation (insert le i l) (i :: l).
Proof.
  induction l as [|j l IH]; simpl.
  - apply Permutation_refl.
  - destruct (le i j).
    + apply Permutation_refl.
    + apply perm_trans with (j :: i :: l).
      * apply perm_skip. exact IH.
      * apply perm_swap.
Qed.

Lemma isort_perm (l : list nat) : Permutation (isort le l) l.
Proof.
  induction l as [|i l IH]; simpl.
  - apply perm_nil.
  - apply perm_trans with (i :: isort le l).
    + apply insert_perm.
    + apply perm_skip. exact IH.
Qed.

Lemma insert_sorted (i : nat) (l : list nat) :
  StronglySorted (fun a b => le a b = true) l ->
  StronglySorted (fun a b => le a b = true) (insert le i l).
Proof.
  induction 1 as [|j l Hs IH Hj]; simpl.
  - constructor; constructor.
  - destruct (le i j) eqn:E.
    + constructor.
      * constructor; assumption.
      * constructor; [exact E|].
        eapply Forall_impl; [|exact Hj].
        intros b Hb. eapply le_trans; eassumption.
    + constructor; [exact IH|].
      assert (Hji : le j i = true).
      { destruct (le_total i j) as [H|H]; [congruence | exact H]. }
      eapply Permutation_Forall.
      * apply Permutation_sym. apply insert_perm.
      * constructor; assumption.
Qed.

Lemma isort_sorted (l : list nat) :
  StronglySorted (fun a b => le a b = true) (isort le l).
Proof.
  induction l as [|i l IH]; simpl.
  - constructor.
  - apply insert_sorted. exact IH.
Qed.

End InsertionSortFacts.

Lemma StronglySorted_weaken {A : Type} (R R' : A -> A -> Prop) (l : list A) :
  (forall a b, R a b -> R' a b) -> StronglySorted R l -> StronglySorted R' l.
Proof.
  intros HR. induction 1 as [|a l Hs IH Ha]; constructor.
  - exact IH.
  - eapply Forall_impl; [|exact Ha]. intros b. apply HR.
Qed.

Lemma stable_le_total d i j : stable_le d i j = true \/ stable_le d j i = true.
Proof.
  unfold stable_le, scalar_ltb.
  destruct (scalar_leb_total (nth i d NaN) (nth j d NaN)) as [H|H]; rewrite H; simpl.
  - destruct (scalar_leb (nth j d NaN) (nth i d NaN)); simpl; auto.
    destruct (Nat.leb_spec i j), (Nat.leb_spec j i); auto; lia.
  - destruct (scalar_leb (nth i d NaN) (nth j d NaN)); simpl; auto.
    destruct (Nat.leb_spec i j), (Nat.leb_spec j i); auto; lia.
Qed.

Lemma reversing_le_total d i j : reversing_le d i j = true \/ reversing_le d j i = true.
Proof.
  unfold reversing_le, scalar_ltb.
  destruct (scalar_leb_total (nth i d NaN) (nth j d NaN)) as [H|H]; rewrite H; simpl.
  - destruct (scalar_leb (nth j d NaN) (nth i d NaN)); simpl; auto.
    destruct (Nat.leb_spec i j), (Nat.leb_spec j i); auto; lia.
  - destruct (scalar_leb (nth i d NaN) (nth j d NaN)); simpl; auto.
    destruct (Nat.leb_spec i j), (Nat.leb_spec j i); auto; lia.
Qed.

(** Both comparisons are lexicographic: first the value, then the index. *)
Lemma lex_trans (x y z : scalar) (p q r : bool) :
  (p = true -> q = true -> r = true) ->
  scalar_ltb x y || (scalar_leb x y && p) = true ->
  scalar_ltb y z || (scalar_leb y z && q) = true ->
  scalar_ltb x z || (scalar_leb x z && r) = true.
Proof.
  intros Hpqr Hxy Hyz.
  apply orb_true_iff in Hxy. apply orb_true_iff in Hyz. apply orb_true_iff.
  unfold scalar_ltb in *.
  destruct (scalar_leb z x) eqn:Ezx; simpl; [right | left; reflexivity].
  destruct Hxy as [Hxy|Hxy].
  - apply negb_true_iff in Hxy.
    assert (scalar_leb y z = true).
    { destruct Hyz as [H|H]; [apply scalar_ltb_leb; exact H|].
      apply andb_true_iff in H. tauto. }
    assert (scalar_leb y x = true) by (eapply scalar_leb_trans; eassumption).
    congruence.
  - apply andb_true_iff in Hxy. destruct Hxy as [Hxy Hp].
    destruct Hyz as [Hyz|Hyz].
    + apply negb_true_iff in Hyz.
      assert (scalar_leb z y = true) by (eapply scalar_leb_trans; eassumption).
      congruence.
    + apply andb_true_iff in Hyz. destruct Hyz as [Hyz Hq].
      apply andb_true_iff. split.
      * eapply scalar_leb_trans; eassumption.
      * apply Hpqr; assumption.
Qed.

Lemma stable_le_trans d i j m :
  stable_le d i j = true -> stable_le d j m = true -> stable_le d i m = true.
Proof.
  unfold stable_le. apply lex_trans.
  rewrite !Nat.leb_le. lia.
Qed.

Lemma reversing_le_trans d i j m :
  reversing_le d i j = true -> reversing_le d j m = true -> reversing_le d i m = true.
Proof.
  unfold reversing_le. apply lex_trans.
  rewrite !Nat.leb_le. lia.
Qed.

Lemma stable_le_dist_le d i j : stable_le d i j = true -> dist_le d i j.
Proof.
  unfold stable_le, dist_le. intros H. apply orb_true_iff in H.
  destruct H as [H|H]; [apply scalar_ltb_leb; exact H|].
  apply andb_true_iff in H. tauto.
Qed.

Lemma reversing_le_dist_le d i j : reversing_le d i j = true -> dist_le d i j.
Proof.
  unfold reversing_le, dist_le. intros H. apply orb_true_iff in H.
  destruct H as [H|H]; [apply scalar_ltb_leb; exact H|].
  apply andb_true_iff in H. tauto.
Qed.

Lemma stable_argsort_lex d :
  StronglySorted (fun i j => stable_le d i j = true) (stable_argsort d).
Proof. apply isort_sorted; [apply stable_le_total | apply stable_le_trans]. Qed.

Lemma stable_argsort_sorts : sorts stable_argsort.
Proof.
  intros d. split.
  - apply isort_perm.
  - eapply StronglySorted_weaken; [|apply stable_argsort_lex].
    apply stable_le_dist_le.
Qed.

Lemma reversing_argsort_sorts : sorts reversing_argsort.
Proof.
  intros d. split.
  - apply isort_perm.
  - eapply StronglySorted_weaken.
    + apply reversing_le_dist_le.
    + apply isort_sorted; [apply reversing_le_total | apply reversing_le_trans].
Qed.

(** ** Basic facts about the monad and the array helpers *)

Lemma mapM_ok {A B : Type} (f : A -> result B) (g : A -> B) (l : list A) :
  (forall a, In a l -> f a = Ok (g a)) -> mapM f l = Ok (map g l).
Proof.
  induction l as [|a l IH]; intros H; simpl.
  - reflexivity.
  - rewrite (H a (or_introl eq_refl)). simpl.
    rewrite IH by (intros b Hb; apply H; right; exact Hb).
    reflexivity.
Qed.

Lemma zip_with_length {A B C : Type} (f : A -> B -> C) (a : list A) (b : list B) :
  List.length a = List.length b -> List.length (zip_with f a b) = List.length a.
Proof.
  revert b. induction a as [|x a IH]; intros [|y b] H; simpl in *; try discriminate.
  - reflexivity.
  - f_equal. apply IH. injection H as H. exact H.
Qed.

Lemma row0_combine (a b : vector) :
  List.length a = List.length b -> row0 (combine a b) = a.
Proof.
  unfold row0. revert b.
  induction a as [|x a IH]; intros [|y b] H; simpl in *; try discriminate.
  - reflexivity.
  - f_equal. apply IH. injection H as H. exact H.
Qed.

Lemma row1_combine (a b : vector) :
  List.length a = List.length b -> row1 (combine a b) = b.
Proof.
  unfold row1. revert b.
  induction a as [|x a IH]; intros [|y b] H; simpl in *; try discriminate.
  - reflexivity.
  - f_equal. apply IH. injection H as H. exact H.
Qed.

Lemma np_array2_ok (a b : vector) :
  List.length a = List.length b -> np_array2 a b = Ok (combine a b).
Proof.
  intros H. unfold np_array2. rewrite H, Nat.eqb_refl. reflexivity.
Qed.

Lemma np_array2_ragged (a b : vector) :
  List.length a <> List.length b -> np_array2 a b = Raise (ValueError Inhomogeneous).
Proof.
  intros H. unfold np_array2.
  destruct (Nat.eqb_spec (List.length a) (List.length b)); [contradiction | reflexivity].
Qed.

(** ** Distance computation, construction and fitting *)

(** C1 (as the code has it). Under the 'manhattan' metric the distance
    between two vectors of one dimensionality is the array of the
    element-wise absolute differences; it is not the scalar
    sum(|a_i - b_i|) the metric is documented to be. *)
Theorem manhattan_returns_array (self : KNeighborsClassifier) (a b : vector) :
  dist_metric self = "manhattan"%string ->
  List.length a = List.length b ->
  distance_between self a b = Ok (DVector (vabs (vsub a b)))
  /\ distance_between self a b <> Ok (DScalar (manhattan_sum a b)).
Proof.
  intros Hm Hlen.
  assert (E : distance_between self a b = Ok (DVector (vabs (vsub a b)))).
  { unfold distance_between. rewrite (np_array2_ok a b Hlen). simpl.
    unfold _calculate_distance_. rewrite Hm. simpl.
    rewrite (row0_combine a b Hlen), (row1_combine a b Hlen). reflexivity. }
  split; [exact E|]. rewrite E. discriminate.
Qed.

Lemma manhattan_returns_array_witness :
  distance_between
    {| k := 5; dist_metric := "manhattan"; X_train := None; y_train := None |}
    [1; 2]%Q [3; 5]%Q
  = Ok (DVector (vabs (vsub [1; 2]%Q [3; 5]%Q)))
  /\ distance_between
       {| k := 5; dist_metric := "manhattan"; X_train := None; y_train := None |}
       [1; 2]%Q [3; 5]%Q
     <> Ok (DScalar (manhattan_sum [1; 2]%Q [3; 5]%Q)).
Proof.
  apply (manhattan_returns_array
           {| k := 5; dist_metric := "manhattan"; X_train := None; y_train := None |}
           [1; 2]%Q [3; 5]%Q); reflexivity.
Defined.

(** What the two sides are at that input: the code gives the array
    [2, 3], the documented metric is 5. *)
Example manhattan_at_1_2_3_5 :
  distance_between
    {| k := 5; dist_metric := "manhattan"; X_train := None; y_train := None |}
    [1; 2]%Q [3; 5]%Q
  = Ok (DVector [2; 3]%Q)
  /\ manhattan_sum [1; 2]%Q [3; 5]%Q = Real 5.
Proof. split; reflexivity. Qed.

Lemma not_code_metric (m : string) :
  ~ In m code_metrics ->
  String.eqb m "euclidean" = false /\ String.eqb m "manhattan" = false
  /\ String.eqb m "chebychev" = false /\ String.eqb m "hemming" = false.
Proof.
  intros H. repeat split; apply String.eqb_neq; intros E; apply H; subst m; simpl; tauto.
Qed.

(** C3 (refuted as stated). Constructing a classifier with the metric name
    'cosine', which is outside the enumeration, succeeds, and a distance
    computation then runs with it and returns None. *)
Lemma init_accepts_unknown_metric :
  ~ In "cosine"%string spec_metrics
  /\ ~ failed (__init__ 5 "cosine")
  /\ exists c, __init__ 5 "cosine" = Ok c
               /\ distance_between c [1]%Q [2]%Q = Ok DNone.
Proof.
  split; [|split].
  - simpl. intros [H|[H|[H|[H|[]]]]]; discriminate.
  - intros [e H]. discriminate.
  - eexists. split; reflexivity.
Qed.

(** C3 (amended). Construction never fails and validates nothing: any k
    and any metric name are stored, and no training data is set.  With a
    name other than 'euclidean', 'manhattan', 'chebychev' and 'hemming'
    every distance computation returns None instead of raising. *)
Theorem init_stores_any_metric (k0 : Z) (m : string) :
  exists c,
    __init__ k0 m = Ok c
    /\ k c = k0 /\ dist_metric c = m /\ X_train c = None /\ y_train c = None
    /\ (~ In m code_metrics -> forall pts, _calculate_distance_ c pts = Ok DNone).
Proof.
  eexists. split; [reflexivity|]. simpl. repeat split.
  intros H pts. destruct (not_code_metric m H) as (E1 & E2 & E3 & E4).
  unfold _calculate_distance_. simpl. rewrite E1, E2, E3, E4. reflexivity.
Qed.

Lemma init_stores_any_metric_witness :
  exists c,
    __init__ 3 "chebyshev" = Ok c
    /\ k c = 3 /\ dist_metric c = "chebyshev"%string
    /\ X_train c = None /\ y_train c = None
    /\ (~ In "chebyshev"%string code_metrics ->
        forall pts, _calculate_distance_ c pts = Ok DNone).
Proof. exact (init_stores_any_metric 3 "chebyshev"). Defined.

(** C8 (refuted as stated). Fitting one feature vector with an empty label
    array (lengths differ, labels empty) does not fail. *)
Lemma fit_accepts_mismatch :
  List.length [[1]%Q] <> List.length (@nil Z)
  /\ ~ failed (fit {| k := 5; dist_metric := "euclidean";
                      X_train := None; y_train := None |} [[1]%Q] []).
Proof.
  split; [discriminate|]. intros [e H]. discriminate.
Qed.

(** C8 (amended). fit never fails and checks nothing: whatever features
    and labels it is given, of equal lengths or not, empty or not, it
    stores them, replacing earlier training data, and leaves k and the
    metric as they were. *)
Theorem fit_stores_dataset (self : KNeighborsClassifier) (X : list vector) (y : list Z) :
  exists self',
    fit self X y = Ok self'
    /\ fitted_on self' X y
    /\ k self' = k self /\ dist_metric self' = dist_metric self.
Proof.
  eexists. split; [reflexivity|]. unfold fitted_on. simpl. repeat split.
Qed.

(** ** Before fit *)




(** ** The majority vote *)

Lemma argmax_from_spec (l pre : list nat) (bi b : nat) :
  (bi < List.length pre)%nat ->
  nth bi pre O = b ->
  (forall j, (j < List.length pre)%nat -> (nth j pre O <= b)%nat) ->
  (forall j, (j < bi)%nat -> (nth j pre O < b)%nat) ->
  let r := argmax_from bi b (List.length pre) l in
  (r < List.length (pre ++ l))%nat
  /\ (forall j, (j < List.length (pre ++ l))%nat ->
                (nth j (pre ++ l) O <= nth r (pre ++ l) O)%nat)
  /\ (forall j, (j < r)%nat -> (nth j (pre ++ l) O < nth r (pre ++ l) O)%nat).
Proof.
  revert pre bi b.
  induction l as [|c l IH]; intros pre bi b Hbi Hb Hmax Hfirst; simpl.
  - rewrite app_nil_r. rewrite Hb. repeat split; auto.
  - assert (Hlen : List.length (pre ++ [c]) = S (List.length pre)).
    { rewrite length_app. simpl. lia. }
    assert (Happ : pre ++ c :: l = (pre ++ [c]) ++ l).
    { rewrite <- app_assoc. reflexivity. }
    assert (Hc : nth (List.length pre) (pre ++ [c]) O = c).
    { rewrite app_nth2 by lia. rewrite Nat.sub_diag. reflexivity. }
    assert (Hpre : forall j, (j < List.length pre)%nat ->
                             nth j (pre ++ [c]) O = nth j pre O).
    { intros j Hj. apply app_nth1. exact Hj. }
    rewrite Happ. rewrite <- Hlen.
    destruct (Nat.ltb_spec b c) as [Hlt|Hge].
    + apply IH.
      * lia.
      * exact Hc.
      * intros j Hj. rewrite Hlen in Hj.
        destruct (Nat.eq_dec j (List.length pre)) as [->|Hne].
        -- rewrite Hc. lia.
        -- rewrite Hpre by lia. specialize (Hmax j). lia.
      * intros j Hj. rewrite Hpre by lia.
        specialize (Hmax j ltac:(lia)). lia.
    + apply IH.
      * lia.
      * rewrite Hpre by lia. exact Hb.
      * intros j Hj. rewrite Hlen in Hj.
        destruct (Nat.eq_dec j (List.length pre)) as [->|Hne].
        -- rewrite Hc. lia.
        -- rewrite Hpre by lia. apply Hmax. lia.
      * intros j Hj. rewrite Hpre by lia. apply Hfirst. exact Hj.
Qed.

(** [argmax] returns the first index of the maximum. *)
Lemma argmax_spec (l : list nat) :
  l <> [] ->
  exists r, argmax l = Ok r
            /\ (r < List.length l)%nat
            /\ (forall j, (j < List.length l)%nat -> (nth j l O <= nth r l O)%nat)
            /\ (forall j, (j < r)%nat -> (nth j l O < nth r l O)%nat).
Proof.
  destruct l as [|c l]; [congruence|]. intros _.
  exists (argmax_from 0 c 1 l). split; [reflexivity|].
  apply (argmax_from_spec l [c] 0 c); simpl.
  - lia.
  - reflexivity.
  - intros [|j] Hj; [lia | lia].
  - intros j Hj. lia.
Qed.

Lemma amax_upper (arr : list Z) (v : Z) : In v arr -> v <= amax arr.
Proof.
  induction arr as [|a arr IH]; simpl; [tauto|].
  intros [->|H]; [lia|]. specialize (IH H). lia.
Qed.

Lemma amax_nonneg (arr : list Z) : 0 <= amax arr.
Proof. induction arr as [|a arr IH]; simpl; lia. Qed.

Lemma amax_in (arr : list Z) :
  arr <> [] -> Forall (fun v => 0 <= v) arr -> In (amax arr) arr.
Proof.
  induction arr as [|a arr IH]; [congruence|]. intros _ H.
  inversion H as [|? ? Ha Harr]; subst. simpl.
  destruct arr as [|a' arr'].
  - left. simpl. lia.
  - destruct (Z.max_spec a (amax (a' :: arr'))) as [[_ E]|[_ E]]; rewrite E.
    + right. apply IH; [discriminate | exact Harr].
    + left. reflexivity.
Qed.

Lemma existsb_negative_false (arr : list Z) :
  Forall (fun v => 0 <= v) arr -> existsb (fun v => v <? 0) arr = false.
Proof.
  induction 1 as [|a arr Ha _ IH]; simpl; [reflexivity|].
  rewrite IH. destruct (Z.ltb_spec a 0); [lia | reflexivity].
Qed.

Lemma existsb_negative_true (arr : list Z) (v : Z) :
  In v arr -> v < 0 -> existsb (fun v => v <? 0) arr = true.
Proof.
  intros Hin Hv. apply existsb_exists. exists v. split; [exact Hin|].
  apply Z.ltb_lt. exact Hv.
Qed.

Lemma np_bincount_ok (arr : list Z) :
  arr <> [] -> Forall (fun v => 0 <= v) arr ->
  np_bincount arr = Ok (map (fun v => count (Z.of_nat v) arr)
                            (seq 0 (S (Z.to_nat (amax arr))))).
Proof.
  intros Hne Hpos. unfold np_bincount.
  destruct arr as [|a arr]; [congruence|].
  rewrite (existsb_negative_false _ Hpos). reflexivity.
Qed.

Lemma nth_bincount (arr : list Z) (j : nat) :
  (j <= Z.to_nat (amax arr))%nat ->
  nth j (map (fun v => count (Z.of_nat v) arr) (seq 0 (S (Z.to_nat (amax arr))))) O
  = count (Z.of_nat j) arr.
Proof.
  intros Hj.
  rewrite (nth_indep _ O (count (Z.of_nat O) arr))
    by (rewrite length_map, length_seq; lia).
  rewrite (map_nth (fun v => count (Z.of_nat v) arr)).
  rewrite seq_nth by lia. reflexivity.
Qed.

Lemma count_outside (arr : list Z) (v : Z) :
  Forall (fun u => 0 <= u) arr -> (v < 0 \/ amax arr < v) -> count v arr = O.
Proof.
  intros Hpos Hv. unfold count. apply count_occ_not_In. intros Hin.
  destruct Hv as [Hv|Hv].
  - rewrite Forall_forall in Hpos. specialize (Hpos v Hin). lia.
  - pose proof (amax_upper arr v Hin). lia.
Qed.

(** The vote on a non-empty array of non-negative labels, in terms of the
    frequency table: the index returned has the first maximal count. *)
Lemma most_common_counts (arr : list Z) :
  arr <> [] ->
  Forall (fun v => 0 <= v) arr ->
  exists r,
    _most_common_ (Arr1 arr) = Ok (Z.of_nat r)
    /\ (r <= Z.to_nat (amax arr))%nat
    /\ (forall j, (j <= Z.to_nat (amax arr))%nat ->
                  (count (Z.of_nat j) arr <= count (Z.of_nat r) arr)%nat)
    /\ (forall j, (j < r)%nat ->
                  (count (Z.of_nat j) arr < count (Z.of_nat r) arr)%nat).
Proof.
  intros Hne Hpos.
  set (counts := map (fun v => count (Z.of_nat v) arr)
                     (seq 0 (S (Z.to_nat (amax arr))))).
  assert (Hlen : List.length counts = S (Z.to_nat (amax arr))).
  { unfold counts. rewrite length_map, length_seq. reflexivity. }
  destruct (argmax_spec counts) as (r & Hr & Hrlt & Hmax & Hfirst).
  { intros E. rewrite E in Hlen. discriminate. }
  rewrite Hlen in Hrlt, Hmax.
  assert (Hnth : forall j, (j <= Z.to_nat (amax arr))%nat ->
                           nth j counts O = count (Z.of_nat j) arr).
  { intros j Hj. apply nth_bincount. exact Hj. }
  exists r. split; [|split; [|split]].
  - unfold _most_common_. rewrite (np_bincount_ok arr Hne Hpos).
    cbn [bind]. fold counts. rewrite Hr. reflexivity.
  - lia.
  - intros j Hj. specialize (Hmax j ltac:(lia)).
    rewrite !Hnth in Hmax by lia. exact Hmax.
  - intros j Hj. specialize (Hfirst j Hj).
    rewrite !Hnth in Hfirst by lia. exact Hfirst.
Qed.

(** The label voted for occurs in the array. *)
Lemma most_common_in (arr : list Z) :
  arr <> [] ->
  Forall (fun v => 0 <= v) arr ->
  exists m, _most_common_ (Arr1 arr) = Ok m /\ In m arr.
Proof.
  intros Hne Hpos.
  destruct (most_common_counts arr Hne Hpos) as (r & Hr & _ & Hmax & _).
  exists (Z.of_nat r). split; [exact Hr|].
  pose proof (amax_nonneg arr) as Hamax.
  pose proof (amax_in arr Hne Hpos) as Hin.
  apply (count_occ_In Z.eq_dec) in Hin.
  specialize (Hmax (Z.to_nat (amax arr)) (Nat.le_refl _)).
  rewrite Z2Nat.id in Hmax by lia.
  apply (count_occ_In Z.eq_dec). unfold count in Hmax. lia.
Qed.

(** C4. In the majority vote over a non-empty array of labels (non-negative
    integers), the result is a label of the array whose count is the
    highest, and among the labels with that count it is the smallest. *)
Theorem most_common_majority (arr : list Z) :
  arr <> [] ->
  Forall (fun v => 0 <= v) arr ->
  exists m,
    _most_common_ (Arr1 arr) = Ok m
    /\ In m arr
    /\ (forall v, (count v arr <= count m arr)%nat)
    /\ (forall v, count v arr = count m arr -> m <= v).
Proof.
  intros Hne Hpos.
  destruct (most_common_counts arr Hne Hpos) as (r & Hr & Hrle & Hmax & Hfirst).
  pose proof (amax_nonneg arr) as Hamax.
  assert (Htop : (1 <= count (Z.of_nat r) arr)%nat).
  { specialize (Hmax (Z.to_nat (amax arr)) (Nat.le_refl _)).
    rewrite Z2Nat.id in Hmax by lia.
    pose proof (amax_in arr Hne Hpos) as Hin.
    apply (count_occ_In Z.eq_dec) in Hin. unfold count in *. lia. }
  exists (Z.of_nat r). split; [exact Hr|]. split; [|split].
  - apply (count_occ_In Z.eq_dec). unfold count in Htop. lia.
  - intros v.
    destruct (Z_lt_dec v 0) as [Hv|Hv].
    { rewrite (count_outside arr v Hpos) by lia. lia. }
    destruct (Z_lt_dec (amax arr) v) as [Hv'|Hv'].
    { rewrite (count_outside arr v Hpos) by lia. lia. }
    specialize (Hmax (Z.to_nat v) ltac:(lia)).
    rewrite Z2Nat.id in Hmax by lia. exact Hmax.
  - intros v Hv.
    destruct (Z_lt_dec v 0) as [Hn|Hn].
    { rewrite (count_outside arr v Hpos) in Hv by lia. lia. }
    destruct (Z_lt_dec (amax arr) v) as [Hv'|Hv'].
    { rewrite (count_outside arr v Hpos) in Hv by lia. lia. }
    destruct (Z_lt_dec v (Z.of_nat r)) as [Hlt|Hge]; [|lia].
    specialize (Hfirst (Z.to_nat v) ltac:(lia)).
    rewrite Z2Nat.id in Hfirst by lia. lia.
Qed.

Lemma most_common_majority_witness :
  exists m,
    _most_common_ (Arr1 [2; 1; 2; 1; 0]) = Ok m
    /\ In m [2; 1; 2; 1; 0]
    /\ (forall v, (count v [2; 1; 2; 1; 0]%Z <= count m [2; 1; 2; 1; 0]%Z)%nat)
    /\ (forall v, count v [2; 1; 2; 1; 0] = count m [2; 1; 2; 1; 0] -> m <= v).
Proof.
  apply (most_common_majority [2; 1; 2; 1; 0]).
  - discriminate.
  - repeat constructor; lia.
Defined.

(** The vote at that input: labels 1 and 2 both occur twice, 1 wins. *)
Example most_common_tie : _most_common_ (Arr1 [2; 1; 2; 1; 0]) = Ok 1.
Proof. reflexivity. Qed.

(** ** Facts about the metrics *)

Lemma sq_nonneg (q : Q) : (0 <= q * q)%Q.
Proof. nra. Qed.

Lemma sum_squares_nonneg (v : vector) : (0 <= np_sum (vsquare v))%Q.
Proof.
  induction v as [|q v IH]; simpl.
  - apply Qle_refl.
  - pose proof (sq_nonneg q). lra.
Qed.



Lemma fold_max_ge_init (l : vector) (a : Q) : (a <= fold_left Qmax_bool l a)%Q.
Proof.
  revert a. induction l as [|b l IH]; intros a; simpl.
  - apply Qle_refl.
  - eapply Qle_trans; [|apply IH]. unfold Qmax_bool.
    destruct (Qle_bool a b) eqn:E.
    + apply Qle_bool_iff. exact E.
    + apply Qle_refl.
Qed.

Lemma fold_max_ge_all (l : vector) (a : Q) :
  Forall (fun x => x <= fold_left Qmax_bool l a)%Q l.
Proof.
  revert a. induction l as [|b l IH]; intros a; simpl; constructor.
  - eapply Qle_trans; [|apply fold_max_ge_init]. unfold Qmax_bool.
    destruct (Qle_bool a b) eqn:E.
    + apply Qle_refl.
    + destruct (Qlt_le_dec b a) as [H|H].
      * apply Qlt_le_weak. exact H.
      * apply Qle_bool_iff in H. congruence.
  - apply IH.
Qed.

Lemma fold_max_in (l : vector) (a : Q) :
  In (fold_left Qmax_bool l a) (a :: l).
Proof.
  revert a. induction l as [|b l IH]; intros a; simpl.
  - left. reflexivity.
  - specialize (IH (Qmax_bool a b)). unfold Qmax_bool in *.
    destruct (Qle_bool a b); destruct IH as [H|H]; auto.
Qed.

Lemma vsub_length (x t : vector) :
  List.length x = List.length t -> List.length (vsub x t) = List.length x.
Proof. apply zip_with_length. Qed.








Lemma distance_between_euclidean self (x t : vector) :
  dist_metric self = "euclidean"%string -> List.length x = List.length t ->
  distance_between self x t = Ok (DScalar (Sqrt (np_sum (vsquare (vsub x t))))).
Proof.
  intros Hm Hlen. unfold distance_between. rewrite (np_array2_ok x t Hlen).
  cbn [bind]. unfold _calculate_distance_. rewrite Hm. cbn [String.eqb Ascii.eqb Bool.eqb].
  rewrite (row0_combine x t Hlen), (row1_combine x t Hlen).
  unfold np_sqrt.
  pose proof (sum_squares_nonneg (vsub x t)) as H. apply Qle_bool_iff in H.
  rewrite H. reflexivity.
Qed.

Lemma distance_between_chebychev self (x t : vector) :
  dist_metric self = "chebychev"%string -> List.length x = List.length t ->
  distance_between self x t
  = (m <- np_max (vabs (vsub x t)) ;; Ok (DScalar (Real m))).
Proof.
  intros Hm Hlen. unfold distance_between. rewrite (np_array2_ok x t Hlen).
  cbn [bind]. unfold _calculate_distance_. rewrite Hm. cbn [String.eqb Ascii.eqb Bool.eqb].
  rewrite (row0_combine x t Hlen), (row1_combine x t Hlen). reflexivity.
Qed.

Lemma distance_between_hemming self (x t : vector) :
  dist_metric self = "hemming"%string -> List.length x = List.length t ->
  distance_between self x t
  = Ok (DScalar (true_divide (count_true (vne x t)) (List.length x))).
Proof.
  intros Hm Hlen. unfold distance_between. rewrite (np_array2_ok x t Hlen).
  cbn [bind]. unfold _calculate_distance_. rewrite Hm. cbn [String.eqb Ascii.eqb Bool.eqb].
  rewrite (row0_combine x t Hlen), (row1_combine x t Hlen). reflexivity.
Qed.

Lemma np_max_nonempty (v : vector) :
  v <> [] -> exists m, np_max v = Ok m /\ In m v /\ Forall (fun q => q <= m)%Q v.
Proof.
  destruct v as [|a l]; [congruence|]. intros _.
  exists (fold_left Qmax_bool l a). split; [reflexivity|]. split.
  - apply fold_max_in.
  - constructor; [apply fold_max_ge_init | apply fold_max_ge_all].
Qed.

Lemma abs_diff_nonempty (x t : vector) (n : nat) :
  List.length x = n -> List.length t = n -> n <> O -> vabs (vsub x t) <> [].
Proof.
  intros Hx Ht Hn E. apply (f_equal (@List.length Q)) in E.
  unfold vabs in E. rewrite length_map, vsub_length in E by congruence.
  simpl in E. congruence.
Qed.

Lemma scalar_distance_total self (n : nat) (x t : vector) :
  scalar_metric (dist_metric self) n ->
  List.length x = n -> List.length t = n ->
  exists s, distance_between self x t = Ok (DScalar s).
Proof.
  intros [Hm|[[Hm Hn]|Hm]] Hx Ht.
  - eexists. apply distance_between_euclidean; congruence.
  - rewrite distance_between_chebychev by congruence.
    destruct (np_max_nonempty (vabs (vsub x t))) as (m & Em & _).
    { eapply abs_diff_nonempty; eassumption. }
    rewrite Em. eexists. reflexivity.
  - eexists. apply distance_between_hemming; congruence.
Qed.


(** ** Pipeline *)

Lemma mapM_scalars {A : Type} (f : A -> result distance) (l : list A) :
  Forall (fun a => exists s, f a = Ok (DScalar s)) l ->
  exists ds, mapM f l = Ok (map DScalar ds)
             /\ List.length ds = List.length l
             /\ forall i a, nth_error l i = Some a -> f a = Ok (DScalar (nth i ds NaN)).
Proof.
  induction 1 as [|a l [s Hs] _ (ds & Hds & Hlen & Hnth)].
  - exists []. repeat split. intros [|i] a H; discriminate.
  - exists (s :: ds). simpl. rewrite Hs, Hds. simpl. repeat split.
    + congruence.
    + intros [|i] b Hb; simpl in *.
      * injection Hb as <-. exact Hs.
      * apply Hnth. exact Hb.
Qed.

Lemma all_scalars_map (ds : list scalar) : all_scalars (map DScalar ds) = Some ds.
Proof.
  induction ds as [|s ds IH]; simpl; [reflexivity|]. rewrite IH. reflexivity.
Qed.

Lemma in_firstn {A : Type} (n : nat) (l : list A) (a : A) : In a (firstn n l) -> In a l.
Proof.
  intros H. rewrite <- (firstn_skipn n l). apply in_or_app. left. exact H.
Qed.

Lemma slice_to_firstn {A : Type} (k0 : Z) (l : list A) :
  exists m, slice_to k0 l = firstn m l /\ (0 <= k0 -> m = Z.to_nat k0).
Proof.
  unfold slice_to. destruct (Z.ltb_spec k0 0).
  - eexists. split; [reflexivity | lia].
  - eexists. split; [reflexivity | reflexivity].
Qed.

Lemma in_slice_to {A : Type} (k0 : Z) (l : list A) (a : A) : In a (slice_to k0 l) -> In a l.
Proof.
  destruct (slice_to_firstn k0 l) as (m & -> & _). apply in_firstn.
Qed.

Lemma take_ok (yt : list Z) (idx : list nat) :
  Forall (fun i => (i < List.length yt)%nat) idx ->
  mapM (item yt) idx = Ok (map (fun i => nth i yt 0) idx).
Proof.
  intros H. apply mapM_ok. intros i Hi. rewrite Forall_forall in H.
  specialize (H i Hi). unfold item.
  destruct (nth_error yt i) as [v|] eqn:E.
  - f_equal. symmetry. apply nth_error_nth. exact E.
  - apply nth_error_None in E. lia.
Qed.


Lemma map_nth_seq (yt : list Z) :
  map (fun i => nth i yt 0) (seq 0 (List.length yt)) = yt.
Proof.
  induction yt as [|v yt IH]; simpl; [reflexivity|].
  f_equal. rewrite <- seq_shift, map_map. exact IH.
Qed.

Section Pipeline.

Variable argsort : sorter.
Hypothesis argsort_sorts : sorts argsort.

Lemma argsort_in (d : list scalar) (i : nat) :
  In i (argsort d) <-> (i < List.length d)%nat.
Proof.
  destruct (argsort_sorts d) as [Hp _]. split; intros H.
  - apply (Permutation_in _ Hp) in H. apply in_seq in H. lia.
  - apply (Permutation_in _ (Permutation_sym Hp)). apply in_seq. lia.
Qed.


Lemma argsort_length (d : list scalar) : List.length (argsort d) = List.length d.
Proof.
  destruct (argsort_sorts d) as [Hp _].
  rewrite (Permutation_length Hp). apply length_seq.
Qed.

(** One iteration of the loop on a well-formed training set, a metric
    that returns scalars and a query of the right dimensionality. *)
Lemma predict_one_scalar self (Xt : list vector) (yt : list Z) (n : nat) (x : vector) :
  fitted_on self Xt yt ->
  List.length Xt = List.length yt ->
  Forall (fun t => List.length t = n) Xt ->
  scalar_metric (dist_metric self) n ->
  List.length x = n ->
  exists ds,
    List.length ds = List.length Xt
    /\ (forall i t, nth_error Xt i = Some t ->
                    distance_between self x t = Ok (DScalar (nth i ds NaN)))
    /\ k_nearest argsort self x = Ok (Arr1 (slice_to (k self) (argsort ds)))
    /\ predict_one argsort self x
       = _most_common_ (Arr1 (map (fun i => nth i yt 0) (slice_to (k self) (argsort ds)))).
Proof.
  intros [HX Hy] Hlen Hdim Hm Hx.
  destruct (mapM_scalars (distance_between self x) Xt) as (ds & Hds & Hdl & Hnth).
  { eapply Forall_impl; [|exact Hdim]. intros t Ht.
    eapply scalar_distance_total; eassumption. }
  exists ds. split; [exact Hdl|]. split; [exact Hnth|].
  assert (Hk : k_nearest argsort self x = Ok (Arr1 (slice_to (k self) (argsort ds)))).
  { unfold k_nearest, distances. rewrite HX. cbn [getattr bind]. rewrite Hds.
    cbn [bind]. unfold np_array. rewrite all_scalars_map. reflexivity. }
  split; [exact Hk|].
  unfold predict_one. rewrite Hk, Hy. cbn [getattr bind take].
  rewrite take_ok; [reflexivity|].
  apply Forall_forall. intros i Hi. apply in_slice_to in Hi.
  apply argsort_in in Hi. lia.
Qed.

End Pipeline.

(** ** Permutation invariance of the vote *)

Lemma amax_perm (l l' : list Z) : Permutation l l' -> amax l = amax l'.
Proof.
  induction 1 as [| a l l' _ IH | a b l | l l' l'' _ IH1 _ IH2]; simpl.
  - reflexivity.
  - rewrite IH. reflexivity.
  - lia.
  - congruence.
Qed.

Lemma existsb_perm {A : Type} (f : A -> bool) (l l' : list A) :
  Permutation l l' -> existsb f l = existsb f l'.
Proof.
  induction 1 as [| a l l' _ IH | a b l | l l' l'' _ IH1 _ IH2]; simpl.
  - reflexivity.
  - rewrite IH. reflexivity.
  - destruct (f a), (f b); reflexivity.
  - congruence.
Qed.

Lemma np_bincount_perm (l l' : list Z) :
  Permutation l l' -> np_bincount l = np_bincount l'.
Proof.
  intros H. unfold np_bincount.
  destruct l as [|a l].
  - apply Permutation_nil in H. subst l'. reflexivity.
  - destruct l' as [|a' l'].
    + apply Permutation_sym, Permutation_nil in H. discriminate.
    + rewrite (existsb_perm _ _ _ H), (amax_perm _ _ H).
      destruct (existsb (fun v => v <? 0) (a' :: l')); [reflexivity|].
      f_equal. apply map_ext. intros v. unfold count.
      apply Permutation_count_occ. exact H.
Qed.

Lemma most_common_perm (l l' : list Z) :
  Permutation l l' -> _most_common_ (Arr1 l) = _most_common_ (Arr1 l').
Proof.
  intros H. unfold _most_common_. rewrite (np_bincount_perm l l' H). reflexivity.
Qed.

Lemma most_common_negative (l : list Z) (v : Z) :
  In v l -> v < 0 -> _most_common_ (Arr1 l) = Raise (ValueError NegativeElements).
Proof.
  intros Hin Hv. unfold _most_common_, np_bincount.
  destruct l as [|a l]; [contradiction|].
  rewrite (existsb_negative_true _ v Hin Hv). reflexivity.
Qed.

(** ** Selection and prediction on a well-formed training set *)

Lemma most_common_singleton (v : Z) : 0 <= v -> _most_common_ (Arr1 [v]) = Ok v.
Proof.
  intros Hv.
  destruct (most_common_in [v]) as (m & Hm & Hin).
  - discriminate.
  - constructor; [exact Hv | constructor].
  - destruct Hin as [<-|[]]. exact Hm.
Qed.


Lemma count_true_eqb_self (y : list Z) : count_true (zip_with Z.eqb y y) = List.length y.
Proof.
  unfold count_true. induction y as [|v y IH]; simpl; [reflexivity|].
  rewrite Z.eqb_refl. simpl. rewrite IH. reflexivity.
Qed.

Lemma true_divide_same (n : nat) : n <> O -> is_one (Ok (true_divide n n)).
Proof.
  intros Hn. destruct n as [|n']; [congruence|].
  unfold is_one, true_divide. eexists. split; [reflexivity|].
  unfold Qeq. cbn [Qnum Qden].
  rewrite <- (positive_nat_Z (Pos.of_nat (S n'))), Nat2Pos.id by discriminate.
  lia.
Qed.

Section Prediction.

Variable argsort : sorter.
Hypothesis argsort_sorts : sorts argsort.

Lemma predict_repeat self (X : list vector) (m : Z) :
  (forall x, In x X -> predict_one argsort self x = Ok m) ->
  predict argsort self X = Ok (repeat m (List.length X)).
Proof.
  induction X as [|x X IH]; intros H; simpl.
  - reflexivity.
  - rewrite (H x (or_introl eq_refl)). cbn [bind].
    rewrite IH by (intros x' Hx'; apply H; right; exact Hx'). reflexivity.
Qed.

(** C6. For every classifier fitted on a non-empty dataset of the data
    model with k greater than the number of training points (and a metric
    that yields scalars), predict does not fail on queries of the training
    dimensionality: for each query the selected neighbours are all the
    training indices, and every prediction is the majority vote over all
    the training labels. *)
Theorem predict_clamps_k self (Xt : list vector) (yt : list Z) (n : nat)
        (X : list vector) :
  fitted_on self Xt yt ->
  valid_dataset Xt yt n ->
  Xt <> [] ->
  scalar_metric (dist_metric self) n ->
  Forall (fun x => List.length x = n) X ->
  Z.of_nat (List.length Xt) < k self ->
  exists m,
    _most_common_ (Arr1 yt) = Ok m
    /\ predict argsort self X = Ok (repeat m (List.length X))
    /\ forall x, In x X ->
         exists sel, k_nearest argsort self x = Ok (Arr1 sel)
                     /\ Permutation sel (seq 0 (List.length Xt)).
Proof.
  intros Hfit [Hlen Hdim Hlab] Hne Hm HX Hk.
  destruct (most_common_in yt) as (m & Hmc & _).
  { intros E. rewrite E in Hlen. destruct Xt; [congruence | discriminate]. }
  { exact Hlab. }
  exists m. split; [exact Hmc|].
  assert (Hall : forall x, In x X ->
            exists ds, List.length ds = List.length Xt
              /\ k_nearest argsort self x = Ok (Arr1 (argsort ds))
              /\ predict_one argsort self x
                 = _most_common_ (Arr1 (map (fun i => nth i yt 0) (argsort ds)))).
  { intros x Hx. rewrite Forall_forall in HX.
    destruct (predict_one_scalar argsort argsort_sorts self Xt yt n x Hfit Hlen Hdim Hm
                (HX x Hx)) as (ds & Hdl & _ & Hkn & Hp).
    assert (Hs : slice_to (k self) (argsort ds) = argsort ds).
    { unfold slice_to. destruct (Z.ltb_spec (k self) 0); [lia|].
      apply firstn_all2. rewrite (argsort_length argsort argsort_sorts). lia. }
    rewrite Hs in Hkn, Hp. exists ds. auto. }
  split.
  - apply predict_repeat. intros x Hx.
    destruct (Hall x Hx) as (ds & Hdl & _ & Hp). rewrite Hp, <- Hmc.
    apply most_common_perm.
    destruct (argsort_sorts ds) as [Hperm _].
    eapply perm_trans; [apply Permutation_map; exact Hperm|].
    rewrite Hdl, Hlen, map_nth_seq. apply Permutation_refl.
  - intros x Hx. destruct (Hall x Hx) as (ds & Hdl & Hkn & _).
    exists (argsort ds). split; [exact Hkn|].
    rewrite <- Hdl. apply argsort_sorts.
Qed.

(** The single neighbour selected with k = 1 is at distance no larger than
    any training point. *)
Lemma nearest_first (ds : list scalar) (i : nat) :
  (i < List.length ds)%nat ->
  exists p0, slice_to 1 (argsort ds) = [p0]
             /\ (p0 < List.length ds)%nat
             /\ dist_le ds p0 i.
Proof.
  intros Hi.
  destruct (argsort_sorts ds) as [Hperm Hsorted].
  pose proof (proj2 (argsort_in argsort argsort_sorts ds i) Hi) as Hin.
  pose proof (argsort_in argsort argsort_sorts ds) as Hrange.
  destruct (argsort ds) as [|p0 rest]; [contradiction|].
  exists p0. split; [reflexivity|]. split.
  - apply Hrange. left. reflexivity.
  - apply StronglySorted_inv in Hsorted. destruct Hsorted as [_ Hall].
    destruct Hin as [<-|Hin].
    + unfold dist_le. apply scalar_leb_refl.
    + rewrite Forall_forall in Hall. apply Hall. exact Hin.
Qed.



End Prediction.

Lemma slice_to_length {A : Type} (k0 : Z) (l : list A) :
  0 <= k0 -> List.length (slice_to k0 l) = Nat.min (Z.to_nat k0) (List.length l).
Proof.
  intros Hk. unfold slice_to. destruct (Z.ltb_spec k0 0); [lia|].
  apply length_firstn.
Qed.


Lemma predict_app (argsort : sorter) self (X1 X2 : list vector) :
  predict argsort self (X1 ++ X2)
  = (ps <- predict argsort self X1 ;; qs <- predict argsort self X2 ;; Ok (ps ++ qs)).
Proof.
  induction X1 as [|x X1 IH]; simpl.
  - destruct (predict argsort self X2); reflexivity.
  - destruct (predict_one argsort self x) as [p|e]; cbn [bind]; [|reflexivity].
    rewrite IH. destruct (predict argsort self X1) as [ps|e]; cbn [bind]; [|reflexivity].
    destruct (predict argsort self X2); reflexivity.
Qed.

Lemma distance_between_ragged self (x t : vector) :
  List.length x <> List.length t ->
  distance_between self x t = Raise (ValueError Inhomogeneous).
Proof.
  intros H. unfold distance_between. rewrite (np_array2_ragged x t H). reflexivity.
Qed.

Lemma predict_one_ragged (argsort : sorter) self (Xt : list vector) (yt : list Z)
      (n : nat) (q : vector) :
  fitted_on self Xt yt -> Xt <> [] ->
  Forall (fun t => List.length t = n) Xt ->
  List.length q <> n ->
  predict_one argsort self q = Raise (ValueError Inhomogeneous).
Proof.
  intros [HX _] Hne Hdim Hq.
  destruct Xt as [|t0 Xt']; [congruence|].
  apply Forall_cons_iff in Hdim. destruct Hdim as [Ht0 _].
  unfold predict_one, k_nearest, distances. rewrite HX. cbn [getattr bind mapM].
  rewrite distance_between_ragged by congruence. reflexivity.
Qed.

Section Selection.

Variable argsort : sorter.
Hypothesis argsort_sorts : sorts argsort.


(** A query on a well-formed classifier is answered when at least one
    neighbour is asked for. *)
Lemma predict_one_ok self (Xt : list vector) (yt : list Z) (n : nat) (x : vector) :
  fitted_on self Xt yt ->
  valid_dataset Xt yt n ->
  Xt <> [] ->
  scalar_metric (dist_metric self) n ->
  1 <= k self ->
  List.length x = n ->
  exists p, predict_one argsort self x = Ok p.
Proof.
  intros Hfit [Hlen Hdim Hlab] Hne Hm Hk Hx.
  destruct (predict_one_scalar argsort argsort_sorts self Xt yt n x Hfit Hlen Hdim Hm Hx)
    as (ds & Hdl & _ & _ & Hp).
  rewrite Hp.
  destruct (most_common_in (map (fun i => nth i yt 0) (slice_to (k self) (argsort ds))))
    as (m & Hmc & _).
  - intros E. apply (f_equal (@List.length Z)) in E.
    rewrite length_map, slice_to_length in E by lia.
    rewrite (argsort_length argsort argsort_sorts), Hdl in E.
    destruct Xt; [congruence|]. simpl in E. lia.
  - apply Forall_forall. intros v Hv. apply in_map_iff in Hv.
    destruct Hv as (i & <- & Hi). apply in_slice_to in Hi.
    apply (argsort_in argsort argsort_sorts) in Hi.
    rewrite Forall_forall in Hlab. apply Hlab. apply nth_In. lia.
  - exists m. exact Hmc.
Qed.

Lemma predict_ok self (Xt : list vector) (yt : list Z) (n : nat) (X : list vector) :
  fitted_on self Xt yt ->
  valid_dataset Xt yt n ->
  Xt <> [] ->
  scalar_metric (dist_metric self) n ->
  1 <= k self ->
  Forall (fun x => List.length x = n) X ->
  exists ps, predict argsort self X = Ok ps /\ List.length ps = List.length X.
Proof.
  intros Hfit Hvd Hne Hm Hk. induction 1 as [|x X Hx _ (ps & Hps & Hl)]; simpl.
  - exists []. split; reflexivity.
  - destruct (predict_one_ok self Xt yt n x) as (p & Hp); try assumption.
    rewrite Hp, Hps. cbn [bind]. exists (p :: ps). split; [reflexivity|].
    simpl. congruence.
Qed.

(** C9. Computing the distance between two feature vectors of different
    lengths fails, under every metric name, when np.array is given the
    ragged pair (ValueError for the inhomogeneous shape, the code's
    dimension-mismatch error).  predict on a classifier fitted on a
    non-empty training set of dimensionality n fails whenever some query
    has another dimensionality; the error is that same one whenever the
    queries before it were answered, as they are on a dataset of the data
    model with k >= 1 and a metric that yields scalars. *)
Theorem dimension_mismatch_fails self (Xt : list vector) (yt : list Z) (n : nat)
        (front : list vector) (q : vector) (back : list vector) :
  fitted_on self Xt yt ->
  Xt <> [] ->
  Forall (fun t => List.length t = n) Xt ->
  List.length q <> n ->
  (forall c a b, List.length a <> List.length b ->
                 distance_between c a b = Raise (ValueError Inhomogeneous))
  /\ failed (predict argsort self (front ++ q :: back))
  /\ (forall ps, predict argsort self front = Ok ps ->
        predict argsort self (front ++ q :: back) = Raise (ValueError Inhomogeneous))
  /\ (valid_dataset Xt yt n -> scalar_metric (dist_metric self) n -> 1 <= k self ->
      Forall (fun x => List.length x = n) front ->
      predict argsort self (front ++ q :: back) = Raise (ValueError Inhomogeneous)).
Proof.
  intros Hfit Hne Hdim Hq.
  assert (Hone : predict_one argsort self q = Raise (ValueError Inhomogeneous)).
  { eapply predict_one_ragged; eassumption. }
  assert (Hafter : forall ps, predict argsort self front = Ok ps ->
            predict argsort self (front ++ q :: back) = Raise (ValueError Inhomogeneous)).
  { intros ps Hps. rewrite predict_app, Hps. cbn [bind predict]. rewrite Hone. reflexivity. }
  split; [|split; [|split]].
  - intros c a b. apply distance_between_ragged.
  - destruct (predict argsort self front) as [ps|e] eqn:E.
    + eexists. apply (Hafter ps). reflexivity.
    + exists e. rewrite predict_app, E. reflexivity.
  - exact Hafter.
  - intros Hvd Hm Hk Hfront.
    destruct (predict_ok self Xt yt n front) as (ps & Hps & _); try assumption.
    apply (Hafter ps Hps).
Qed.

Lemma predict_one_negative self (Xt : list vector) (yt : list Z) (n : nat)
      (x : vector) (sel : list nat) (i : nat) (v : Z) :
  fitted_on self Xt yt ->
  List.length Xt = List.length yt ->
  Forall (fun t => List.length t = n) Xt ->
  scalar_metric (dist_metric self) n ->
  List.length x = n ->
  k_nearest argsort self x = Ok (Arr1 sel) ->
  In i sel -> nth_error yt i = Some v -> v < 0 ->
  predict_one argsort self x = Raise (ValueError NegativeElements).
Proof.
  intros Hfit Hlen Hdim Hm Hx Hsel Hi Hv Hneg.
  destruct (predict_one_scalar argsort argsort_sorts self Xt yt n x Hfit Hlen Hdim Hm Hx)
    as (ds & _ & _ & Hkn & Hp).
  rewrite Hkn in Hsel. injection Hsel as <-. rewrite Hp.
  apply (most_common_negative _ v); [|exact Hneg].
  apply in_map_iff. exists i. split; [|exact Hi].
  apply nth_error_nth. exact Hv.
Qed.

(** C10. The majority vote counts labels with np.bincount, which rejects
    negative values: whenever a training label selected for a query is
    negative, predict fails instead of returning a label, and a fitted
    state with a negative label on which predict fails exists (one
    training point, labelled -1). *)
Theorem negative_label_fails self (Xt : list vector) (yt : list Z) (n : nat)
        (x : vector) (X : list vector) (sel : list nat) (i : nat) (v : Z) :
  fitted_on self Xt yt ->
  List.length Xt = List.length yt ->
  Forall (fun t => List.length t = n) Xt ->
  scalar_metric (dist_metric self) n ->
  List.length x = n ->
  k_nearest argsort self x = Ok (Arr1 sel) ->
  In i sel -> nth_error yt i = Some v -> v < 0 ->
  predict argsort self (x :: X) = Raise (ValueError NegativeElements)
  /\ exists c fitted,
       __init__ 1 "euclidean" = Ok c
       /\ fit c [[0]%Q] [-1] = Ok fitted
       /\ predict argsort fitted [[0]%Q] = Raise (ValueError NegativeElements).
Proof.
  intros Hfit Hlen Hdim Hm Hx Hsel Hi Hv Hneg.
  split.
  - cbn [predict]. rewrite (predict_one_negative self Xt yt n x sel i v) by assumption.
    reflexivity.
  - set (fitted := {| k := 1; dist_metric := "euclidean";
                      X_train := Some [[0]%Q]; y_train := Some [-1] |}).
    exists {| k := 1; dist_metric := "euclidean"; X_train := None; y_train := None |}.
    exists fitted. split; [reflexivity|]. split; [reflexivity|].
    assert (Hf : fitted_on fitted [[0]%Q] [-1]) by (split; reflexivity).
    assert (Hd : Forall (fun t : vector => List.length t = 1%nat) [[0]%Q])
      by (repeat constructor).
    assert (Hmm : scalar_metric (dist_metric fitted) 1) by (left; reflexivity).
    destruct (predict_one_scalar argsort argsort_sorts fitted [[0]%Q] [-1] 1%nat [0]%Q
                Hf eq_refl Hd Hmm eq_refl) as (ds & Hdl & _ & Hkn & _).
    assert (Hin : In O (slice_to (k fitted) (argsort ds))).
    { assert (Hall : slice_to (k fitted) (argsort ds) = argsort ds).
      { unfold slice_to. replace (k fitted <? 0) with false by reflexivity.
        apply firstn_all2.
        rewrite (argsort_length argsort argsort_sorts), Hdl.
        change (Z.to_nat (k fitted)) with 1%nat. simpl. lia. }
      rewrite Hall. apply (argsort_in argsort argsort_sorts). rewrite Hdl. simpl. lia. }
    cbn [predict].
    rewrite (predict_one_negative fitted [[0]%Q] [-1] 1%nat [0]%Q _ O (-1)
               Hf eq_refl Hd Hmm eq_refl Hkn Hin eq_refl ltac:(lia)).
    reflexivity.
Qed.

End Selection.

(** ** The scenarios, evaluated *)

Lemma fitted_on_fitted (k0 : Z) (m : string) (X : list vector) (y : list Z) :
  fitted_on (fitted k0 m X y) X y.
Proof. split; reflexivity. Qed.

(** The two scenarios of the specification, with a stable sort. *)
Example predict_plane :
  predict stable_argsort (fitted 1 "euclidean" plane_X plane_y) [[1; 1]; [9; 9]]%Q
  = Ok [0; 1].
Proof. reflexivity. Qed.

Example predict_line :
  predict stable_argsort (fitted 3 "euclidean" line_X line_y) [[1 # 2]]%Q = Ok [0]
  /\ k_nearest stable_argsort (fitted 3 "euclidean" line_X line_y) [1 # 2]%Q
     = Ok (Arr1 [0; 1; 2]%nat).
Proof. split; reflexivity. Qed.



(** With the stable sort the tie goes to index 0. *)
Example tie_stable :
  index_stable stable_argsort
  /\ k_nearest stable_argsort (fitted 1 "euclidean" tie_X tie_y) [0]%Q
     = Ok (Arr1 [0%nat]).
Proof. split; [exact stable_argsort_lex | reflexivity]. Qed.




Lemma predict_clamps_k_witness :
  exists m,
    _most_common_ (Arr1 line_y) = Ok m
    /\ predict stable_argsort (fitted 100 "euclidean" line_X line_y) [[1 # 2]; [9]]%Q
       = Ok (repeat m (List.length [[1 # 2]; [9]]%Q))
    /\ forall x, In x [[1 # 2]; [9]]%Q ->
         exists sel,
           k_nearest stable_argsort (fitted 100 "euclidean" line_X line_y) x
           = Ok (Arr1 sel)
           /\ Permutation sel (seq 0 (List.length line_X)).
Proof.
  apply (predict_clamps_k stable_argsort stable_argsort_sorts
           (fitted 100 "euclidean" line_X line_y) line_X line_y 1%nat).
  - apply fitted_on_fitted.
  - constructor; [reflexivity | repeat constructor | repeat constructor; lia].
  - discriminate.
  - left. reflexivity.
  - repeat constructor.
  - simpl. lia.
Defined.

(** In that scenario every query gets the overall majority label 1. *)
Example predict_clamps_line :
  predict stable_argsort (fitted 100 "euclidean" line_X line_y) [[1 # 2]; [9]]%Q
  = Ok [1; 1].
Proof. reflexivity. Qed.

Lemma dimension_mismatch_fails_witness :
  (forall c a b, List.length a <> List.length b ->
                 distance_between c a b = Raise (ValueError Inhomogeneous))
  /\ failed (predict stable_argsort (fitted 1 "euclidean" plane_X plane_y)
                     ([[1; 1]%Q] ++ [1; 2; 3]%Q :: [[9; 9]%Q]))
  /\ (forall ps,
        predict stable_argsort (fitted 1 "euclidean" plane_X plane_y) [[1; 1]%Q] = Ok ps ->
        predict stable_argsort (fitted 1 "euclidean" plane_X plane_y)
                ([[1; 1]%Q] ++ [1; 2; 3]%Q :: [[9; 9]%Q])
        = Raise (ValueError Inhomogeneous))
  /\ (valid_dataset plane_X plane_y 2 ->
      scalar_metric (dist_metric (fitted 1 "euclidean" plane_X plane_y)) 2 ->
      1 <= k (fitted 1 "euclidean" plane_X plane_y) ->
      Forall (fun x => List.length x = 2%nat) [[1; 1]%Q] ->
      predict stable_argsort (fitted 1 "euclidean" plane_X plane_y)
              ([[1; 1]%Q] ++ [1; 2; 3]%Q :: [[9; 9]%Q])
      = Raise (ValueError Inhomogeneous)).
Proof.
  apply (dimension_mismatch_fails stable_argsort stable_argsort_sorts
           (fitted 1 "euclidean" plane_X plane_y) plane_X plane_y 2%nat
           [[1; 1]%Q] [1; 2; 3]%Q [[9; 9]%Q]).
  - apply fitted_on_fitted.
  - discriminate.
  - repeat constructor.
  - simpl. lia.
Defined.

(** The same run, evaluated: the first query is answered, the second has
    three features instead of two. *)
Example dimension_mismatch_run :
  predict stable_argsort (fitted 1 "euclidean" plane_X plane_y)
          [[1; 1]; [1; 2; 3]; [9; 9]]%Q
  = Raise (ValueError Inhomogeneous)
  /\ distance_between (fitted 1 "hemming" plane_X plane_y) [1; 2; 3]%Q [0; 0]%Q
     = Raise (ValueError Inhomogeneous).
Proof. split; reflexivity. Qed.

Lemma negative_label_fails_witness :
  predict stable_argsort (fitted 1 "euclidean" plane_X [0; -1]) [[9; 9]; [1; 1]]%Q
  = Raise (ValueError NegativeElements)
  /\ exists c f,
       __init__ 1 "euclidean" = Ok c
       /\ fit c [[0]%Q] [-1] = Ok f
       /\ predict stable_argsort f [[0]%Q] = Raise (ValueError NegativeElements).
Proof.
  apply (negative_label_fails stable_argsort stable_argsort_sorts
           (fitted 1 "euclidean" plane_X [0; -1]) plane_X [0; -1] 2%nat
           [9; 9]%Q [[1; 1]%Q] [1%nat] 1%nat (-1)).
  - apply fitted_on_fitted.
  - reflexivity.
  - repeat constructor.
  - left. reflexivity.
  - reflexivity.
  - reflexivity.
  - left. reflexivity.
  - reflexivity.
  - lia.
Defined.

(** A negative label that is not among the selected neighbours does no
    harm: the query next to the point labelled 0 is answered. *)
Example negative_label_unselected :
  predict stable_argsort (fitted 1 "euclidean" plane_X [0; -1]) [[1; 1]%Q] = Ok [0].
Proof. reflexivity. Qed.

(** ** predict under the 'manhattan' metric *)

Lemma all_vectors_map (rows : list vector) : all_vectors (map DVector rows) = Some rows.
Proof.
  induction rows as [|r rows IH]; simpl; [reflexivity|]. rewrite IH. reflexivity.
Qed.

Lemma mapM_vectors {A : Type} (f : A -> result distance) (l : list A) :
  (forall a, In a l -> failed (f a) \/ exists v, f a = Ok (DVector v)) ->
  failed (mapM f l) \/ exists rows, mapM f l = Ok (map DVector rows).
Proof.
  induction l as [|a l IH]; intros H; simpl.
  - right. exists []. reflexivity.
  - destruct (H a (or_introl eq_refl)) as [[e He]|[v Hv]].
    + left. exists e. rewrite He. reflexivity.
    + rewrite Hv. cbn [bind].
      destruct IH as [[e He]|[rows Hrows]].
      * intros b Hb. apply H. right. exact Hb.
      * left. exists e. rewrite He. reflexivity.
      * right. exists (v :: rows). rewrite Hrows. reflexivity.
Qed.

Lemma distance_between_manhattan self (x t : vector) :
  dist_metric self = "manhattan"%string ->
  failed (distance_between self x t) \/ exists v, distance_between self x t = Ok (DVector v).
Proof.
  intros Hm. unfold distance_between, np_array2.
  destruct (Nat.eqb (List.length x) (List.length t)); cbn [bind].
  - right. unfold _calculate_distance_. rewrite Hm. eexists. reflexivity.
  - left. eexists. reflexivity.
Qed.

(** Downstream of C1: since the 'manhattan' distances form a
    two-dimensional array, predict never returns a label under that
    metric; every call with at least one query fails. *)
Lemma manhattan_predict_fails (argsort : sorter) self (Xt : list vector) (yt : list Z)
      (x : vector) (X : list vector) :
  sorts argsort ->
  fitted_on self Xt yt ->
  dist_metric self = "manhattan"%string ->
  failed (predict argsort self (x :: X)).
Proof.
  intros Hsorts [HX Hy] Hm.
  assert (Hone : failed (predict_one argsort self x)).
  { unfold predict_one, k_nearest, distances. rewrite HX, Hy. cbn [getattr bind].
    destruct (mapM_vectors (distance_between self x) Xt) as [[e He]|[rows Hrows]].
    - intros t _. apply distance_between_manhattan. exact Hm.
    - exists e. rewrite He. reflexivity.
    - rewrite Hrows. cbn [bind]. destruct rows as [|r rows].
      + cbn. destruct (Hsorts []) as [Hp _]. simpl in Hp.
        apply Permutation_sym, Permutation_nil in Hp. rewrite Hp.
        unfold slice_to. rewrite !firstn_nil.
        destruct (k self <? 0); eexists; reflexivity.
      + unfold np_array.
        replace (all_scalars (map DVector (r :: rows))) with (@None (list scalar))
          by reflexivity.
        rewrite all_vectors_map.
        destruct (same_lengths (r :: rows)); cbn [bind np_argsort slice_rows take].
        * destruct (mapM (mapM (item yt)) _) as [a|e]; eexists; reflexivity.
        * eexists. reflexivity. }
  destruct Hone as [e He]. exists e. cbn [predict]. rewrite He. reflexivity.
Qed.

Example manhattan_predict_line :
  predict stable_argsort (fitted 3 "manhattan" line_X line_y) [[1 # 2]]%Q
  = Raise (ValueError TooDeep).
Proof. reflexivity. Qed.

(** ** Properties of the metrics *)




Lemma count_true_le (l : list bool) : (count_true l <= List.length l)%nat.
Proof.
  unfold count_true. induction l as [|b l IH]; simpl; [lia|].
  destruct b; simpl; lia.
Qed.




Lemma true_divide_real (c n : nat) :
  n <> O -> true_divide c n = Real (Z.of_nat c # Pos.of_nat n).
Proof. destruct n; [congruence | reflexivity]. Qed.



Lemma sum_squares_sym (a b : vector) :
  (np_sum (vsquare (vsub a b)) == np_sum (vsquare (vsub b a)))%Q.
Proof.
  revert b. induction a as [|x a IH]; intros [|y b]; simpl; try reflexivity.
  specialize (IH b). unfold vsub in IH. rewrite IH. ring.
Qed.

Lemma abs_diff_sym (a b : vector) :
  Forall2 Qeq (vabs (vsub a b)) (vabs (vsub b a)).
Proof.
  revert b. induction a as [|x a IH]; intros [|y b]; try constructor.
  - change (Qabs (x - y) == Qabs (y - x))%Q.
    rewrite <- (Qabs_opp (y - x)). apply Qabs_wd. ring.
  - apply IH.
Qed.

Lemma Qmax_bool_wd (a a' b b' : Q) :
  (a == a')%Q -> (b == b')%Q -> (Qmax_bool a b == Qmax_bool a' b')%Q.
Proof.
  intros Ha Hb. unfold Qmax_bool.
  destruct (Qle_bool a b) eqn:E, (Qle_bool a' b') eqn:E'; try assumption.
  - apply Qle_bool_iff in E. rewrite Ha, Hb in E. apply Qle_bool_iff in E. congruence.
  - apply Qle_bool_iff in E'. rewrite <- Ha, <- Hb in E'. apply Qle_bool_iff in E'.
    congruence.
Qed.

Lemma fold_max_wd (l l' : vector) (a a' : Q) :
  Forall2 Qeq l l' -> (a == a')%Q ->
  (fold_left Qmax_bool l a == fold_left Qmax_bool l' a')%Q.
Proof.
  intros H. revert a a'. induction H as [|x y l l' Hxy _ IH]; intros a a' Ha; simpl.
  - exact Ha.
  - apply IH. apply Qmax_bool_wd; assumption.
Qed.

Lemma np_max_wd (v v' : vector) (m m' : Q) :
  Forall2 Qeq v v' -> np_max v = Ok m -> np_max v' = Ok m' -> (m == m')%Q.
Proof.
  intros H Hm Hm'. destruct H as [|x y l l' Hxy Hl]; simpl in *; [discriminate|].
  injection Hm as <-. injection Hm' as <-. apply fold_max_wd; assumption.
Qed.

Lemma vne_sym (a b : vector) : vne a b = vne b a.
Proof.
  revert b. induction a as [|x a IH]; intros [|y b]; simpl; try reflexivity.
  unfold vne in *. simpl. rewrite (IH b). f_equal. f_equal.
  destruct (Qeq_bool x y) eqn:E, (Qeq_bool y x) eqn:E'; try reflexivity.
  - apply Qeq_bool_iff in E. symmetry in E. apply Qeq_bool_iff in E. congruence.
  - apply Qeq_bool_iff in E'. symmetry in E'. apply Qeq_bool_iff in E'. congruence.
Qed.

Lemma scalar_equiv_refl (s : scalar) : scalar_equiv s s.
Proof. split; apply scalar_leb_refl. Qed.

Lemma real_equiv (p q : Q) : (p == q)%Q -> scalar_equiv (Real p) (Real q).
Proof.
  intros E. unfold scalar_equiv, scalar_leb, key, signed_square.
  assert (B : Qle_bool 0 p = Qle_bool 0 q).
  { destruct (Qle_bool 0 p) eqn:Ep, (Qle_bool 0 q) eqn:Eq; try reflexivity.
    - apply Qle_bool_iff in Ep. rewrite E in Ep. apply Qle_bool_iff in Ep. congruence.
    - apply Qle_bool_iff in Eq. rewrite <- E in Eq. apply Qle_bool_iff in Eq. congruence. }
  rewrite B. destruct (Qle_bool 0 q); rewrite !Qle_bool_iff; rewrite E; split; apply Qle_refl.
Qed.

(** X2. The distance is symmetric: under 'euclidean', 'chebychev' and
    'hemming', the distances from a to b and from b to a are scalars that
    denote the same number. *)
Theorem distance_symmetric self (n : nat) (a b : vector) :
  scalar_metric (dist_metric self) n ->
  List.length a = n -> List.length b = n ->
  exists s1 s2,
    distance_between self a b = Ok (DScalar s1)
    /\ distance_between self b a = Ok (DScalar s2)
    /\ scalar_equiv s1 s2.
Proof.
  intros [Hm|[[Hm Hn]|Hm]] Ha Hb.
  - rewrite !distance_between_euclidean by congruence.
    eexists. eexists. split; [reflexivity|]. split; [reflexivity|].
    unfold scalar_equiv, scalar_leb. simpl. rewrite !Qle_bool_iff.
    rewrite (sum_squares_sym a b). split; apply Qle_refl.
  - rewrite !distance_between_chebychev by congruence.
    destruct (np_max_nonempty (vabs (vsub a b))) as (m1 & E1 & _).
    { eapply abs_diff_nonempty; eassumption. }
    destruct (np_max_nonempty (vabs (vsub b a))) as (m2 & E2 & _).
    { eapply abs_diff_nonempty; eassumption. }
    rewrite E1, E2. cbn [bind].
    eexists. eexists. split; [reflexivity|]. split; [reflexivity|].
    apply real_equiv. eapply np_max_wd; [apply abs_diff_sym | exact E1 | exact E2].
  - rewrite !distance_between_hemming by congruence.
    eexists. eexists. split; [reflexivity|]. split; [reflexivity|].
    rewrite (vne_sym b a), Ha, Hb. apply scalar_equiv_refl.
Qed.

Lemma distance_symmetric_witness :
  exists s1 s2,
    distance_between (fitted 3 "euclidean" plane_X plane_y) [1; 5]%Q [4; 3]%Q
    = Ok (DScalar s1)
    /\ distance_between (fitted 3 "euclidean" plane_X plane_y) [4; 3]%Q [1; 5]%Q
       = Ok (DScalar s2)
    /\ scalar_equiv s1 s2.
Proof.
  apply (distance_symmetric (fitted 3 "euclidean" plane_X plane_y) 2%nat).
  - left. reflexivity.
  - reflexivity.
  - reflexivity.
Defined.

(** X3. Under 'hemming' the distance between two vectors of the same
    positive length is the fraction of differing coordinates, a number
    between 0 and 1; for vectors without coordinates it is nan. *)
Theorem hemming_is_fraction self (a b : vector) :
  dist_metric self = "hemming"%string ->
  List.length a = List.length b ->
  (a <> [] ->
   exists q, distance_between self a b = Ok (DScalar (Real q))
             /\ (q == inject_Z (Z.of_nat (count_true (vne a b)))
                      / inject_Z (Z.of_nat (List.length a)))%Q
             /\ (0 <= q <= 1)%Q)
  /\ (a = [] -> distance_between self a b = Ok (DScalar NaN)).
Proof.
  intros Hm Hlen. rewrite distance_between_hemming by assumption. split.
  - intros Hne.
    assert (Hn : List.length a <> O) by (destruct a; [congruence | discriminate]).
    rewrite true_divide_real by exact Hn.
    eexists. split; [reflexivity|].
    pose proof (count_true_le (vne a b)) as Hle.
    unfold vne in Hle. rewrite zip_with_length in Hle by exact Hlen.
    assert (Hp : Z.pos (Pos.of_nat (List.length a)) = Z.of_nat (List.length a)).
    { rewrite <- (positive_nat_Z (Pos.of_nat (List.length a))), Nat2Pos.id by exact Hn.
      reflexivity. }
    split; [|split].
    + rewrite (Qmake_Qdiv (Z.of_nat (count_true (vne a b))) (Pos.of_nat (List.length a))).
      rewrite Hp. reflexivity.
    + unfold Qle. simpl. lia.
    + unfold Qle. cbn [Qnum Qden]. rewrite Hp. unfold vne. lia.
  - intros ->. reflexivity.
Qed.

Lemma hemming_is_fraction_witness :
  ([1; 5; 7]%Q <> [] ->
   exists q,
     distance_between (fitted 3 "hemming" plane_X plane_y) [1; 5; 7]%Q [1; 3; 7]%Q
     = Ok (DScalar (Real q))
     /\ (q == inject_Z (Z.of_nat (count_true (vne [1; 5; 7]%Q [1; 3; 7]%Q)))
              / inject_Z (Z.of_nat (List.length [1; 5; 7]%Q)))%Q
     /\ (0 <= q <= 1)%Q)
  /\ ([1; 5; 7]%Q = [] ->
      distance_between (fitted 3 "hemming" plane_X plane_y) [1; 5; 7]%Q [1; 3; 7]%Q
      = Ok (DScalar NaN)).
Proof.
  apply (hemming_is_fraction (fitted 3 "hemming" plane_X plane_y)); reflexivity.
Defined.








(** X6. Feature vectors without coordinates: under 'chebychev' the maximum
    of an empty array does not exist, so on a non-empty training set of
    such vectors predict fails on the first query (ValueError of np.max),
    whatever k and the labels are. *)
Theorem chebychev_no_features (argsort : sorter) self (Xt : list vector) (yt : list Z)
        (X : list vector) :
  dist_metric self = "chebychev"%string ->
  fitted_on self Xt yt ->
  Xt <> [] ->
  Forall (fun t => t = []) Xt ->
  predict argsort self ([] :: X) = Raise (ValueError EmptyReduction).
Proof.
  intros Hm [HX _] Hne Hall.
  destruct Xt as [|t0 Xt']; [congruence|].
  apply Forall_cons_iff in Hall. destruct Hall as [-> _].
  cbn [predict]. unfold predict_one, k_nearest, distances.
  rewrite HX. cbn [getattr bind mapM].
  rewrite distance_between_chebychev by (exact Hm || reflexivity).
  reflexivity.
Qed.

Lemma chebychev_no_features_witness :
  predict stable_argsort (fitted 1 "chebychev" [[]; []] [0; 1]) ([] :: [[]])
  = Raise (ValueError EmptyReduction).
Proof.
  apply (chebychev_no_features stable_argsort (fitted 1 "chebychev" [[]; []] [0; 1])
           [[]; []] [0; 1] [[]]).
  - reflexivity.
  - apply fitted_on_fitted.
  - discriminate.
  - repeat constructor.
Defined.

(** ** Properties of the majority vote *)

(** X7. The vote depends only on which labels are given and how often, not
    on their order: on two arrays that are permutations of each other
    _most_common_ returns the same label, or fails in the same way. *)
Theorem vote_ignores_order (l l' : list Z) :
  Permutation l l' -> _most_common_ (Arr1 l) = _most_common_ (Arr1 l').
Proof.
  intros H. unfold _most_common_.
  assert (E : np_bincount l = np_bincount l').
  { apply np_bincount_perm. exact H. }
  rewrite E. reflexivity.
Qed.

Lemma vote_ignores_order_witness :
  _most_common_ (Arr1 [2; 0; 2; 1]) = _most_common_ (Arr1 [0; 1; 2; 2]).
Proof.
  apply (vote_ignores_order [2; 0; 2; 1] [0; 1; 2; 2]).
  apply perm_trans with (0 :: 2 :: 2 :: [1]).
  - apply perm_swap.
  - apply perm_skip.
    apply perm_trans with (2 :: 1 :: [2]).
    + apply perm_skip. apply perm_swap.
    + apply perm_swap.
Defined.

Lemma count_two (arr : list Z) (v w : Z) :
  v <> w -> (count v arr + count w arr <= List.length arr)%nat.
Proof.
  intros Hvw. unfold count. induction arr as [|a arr IH]; simpl; [lia|].
  destruct (Z.eq_dec a v), (Z.eq_dec a w); subst; try congruence; lia.
Qed.

(** X8. A label that makes up more than half of a non-empty array of
    non-negative labels wins the vote. *)
Theorem vote_strict_majority (arr : list Z) (v : Z) :
  Forall (fun u => 0 <= u) arr ->
  (List.length arr < 2 * count v arr)%nat ->
  _most_common_ (Arr1 arr) = Ok v.
Proof.
  intros Hpos Hmaj.
  assert (Hne : arr <> []).
  { intros ->. simpl in Hmaj. lia. }
  assert (Hin : In v arr).
  { apply (count_occ_In Z.eq_dec). unfold count in Hmaj. lia. }
  destruct (most_common_counts arr Hne Hpos) as (r & Hr & _ & Hmax & _).
  assert (Hv0 : 0 <= v) by (rewrite Forall_forall in Hpos; apply Hpos; exact Hin).
  pose proof (amax_upper arr v Hin) as Hup.
  specialize (Hmax (Z.to_nat v) ltac:(lia)).
  rewrite Z2Nat.id in Hmax by lia.
  destruct (Z.eq_dec (Z.of_nat r) v) as [E|E].
  - rewrite Hr, E. reflexivity.
  - pose proof (count_two arr (Z.of_nat r) v E). lia.
Qed.

Lemma vote_strict_majority_witness : _most_common_ (Arr1 [3; 0; 3; 1; 3]) = Ok 3.
Proof.
  apply (vote_strict_majority [3; 0; 3; 1; 3] 3).
  - repeat constructor; lia.
  - simpl. lia.
Defined.

Lemma most_common_ok_inv (arr : list Z) (m : Z) :
  _most_common_ (Arr1 arr) = Ok m ->
  arr <> [] /\ Forall (fun v => 0 <= v) arr /\ In m arr.
Proof.
  intros Hm.
  assert (Hne : arr <> []).
  { intros ->. discriminate. }
  assert (Hpos : Forall (fun v => 0 <= v) arr).
  { apply Forall_forall. intros v Hin.
    destruct (Z_lt_dec v 0) as [Hv|Hv]; [|lia].
    rewrite (most_common_negative arr v Hin Hv) in Hm. discriminate. }
  split; [exact Hne|]. split; [exact Hpos|].
  destruct (most_common_in arr Hne Hpos) as (m' & Hm' & Hin).
  rewrite Hm in Hm'. injection Hm' as <-. exact Hin.
Qed.

(** X9. The vote returns a label exactly on the non-empty arrays of
    non-negative integers, and the label it returns is one of the array:
    on the empty array it fails (argmax of an empty sequence), on an array
    with a negative element it fails (np.bincount). *)
Theorem vote_domain (arr : list Z) :
  (arr = [] -> _most_common_ (Arr1 arr) = Raise (ValueError EmptyArgmax))
  /\ ((exists v, In v arr /\ v < 0) ->
      _most_common_ (Arr1 arr) = Raise (ValueError NegativeElements))
  /\ (arr <> [] -> Forall (fun v => 0 <= v) arr ->
      exists m, _most_common_ (Arr1 arr) = Ok m /\ In m arr)
  /\ (forall m, _most_common_ (Arr1 arr) = Ok m ->
                arr <> [] /\ Forall (fun v => 0 <= v) arr /\ In m arr).
Proof.
  split; [|split; [|split]].
  - intros ->. reflexivity.
  - intros (v & Hin & Hv). apply (most_common_negative arr v Hin Hv).
  - apply most_common_in.
  - apply most_common_ok_inv.
Qed.

Lemma vote_domain_witness :
  ([4; -2; 4] = [] -> _most_common_ (Arr1 [4; -2; 4]) = Raise (ValueError EmptyArgmax))
  /\ ((exists v, In v [4; -2; 4] /\ v < 0) ->
      _most_common_ (Arr1 [4; -2; 4]) = Raise (ValueError NegativeElements))
  /\ ([4; -2; 4] <> [] -> Forall (fun v => 0 <= v) [4; -2; 4] ->
      exists m, _most_common_ (Arr1 [4; -2; 4]) = Ok m /\ In m [4; -2; 4])
  /\ (forall m, _most_common_ (Arr1 [4; -2; 4]) = Ok m ->
                [4; -2; 4] <> [] /\ Forall (fun v => 0 <= v) [4; -2; 4]
                /\ In m [4; -2; 4]).
Proof. exact (vote_domain [4; -2; 4]). Defined.

(** ** Properties of predict *)

Lemma mapM_length {A B : Type} (f : A -> result B) (l : list A) (bs : list B) :
  mapM f l = Ok bs -> List.length bs = List.length l.
Proof.
  revert bs. induction l as [|a l IH]; intros bs H; simpl in H.
  - injection H as <-. reflexivity.
  - destruct (f a) as [b|e]; cbn [bind] in H; [|discriminate].
    destruct (mapM f l) as [bs'|e]; cbn [bind] in H; [|discriminate].
    injection H as <-. simpl. f_equal. apply IH. reflexivity.
Qed.

Lemma distances_with_k self (k0 : Z) (x : vector) :
  distances (with_k self k0) x = distances self x.
Proof. reflexivity. Qed.

Lemma sorted_unique {A : Type} (R : A -> A -> Prop) (l1 l2 : list A) :
  Permutation l1 l2 ->
  StronglySorted R l1 -> StronglySorted R l2 ->
  (forall a b, In a l1 -> In b l1 -> R a b -> R b a -> a = b) ->
  l1 = l2.
Proof.
  revert l2. induction l1 as [|a l1 IH]; intros l2 Hp H1 H2 Hanti.
  - apply Permutation_nil in Hp. congruence.
  - destruct l2 as [|b l2].
    { apply Permutation_sym, Permutation_nil in Hp. discriminate. }
    apply StronglySorted_inv in H1. destruct H1 as [H1 Ha].
    apply StronglySorted_inv in H2. destruct H2 as [H2 Hb].
    rewrite Forall_forall in Ha, Hb.
    assert (Hab : a = b).
    { assert (Hin_a : In a (b :: l2)) by (apply (Permutation_in _ Hp); left; reflexivity).
      assert (Hin_b : In b (a :: l1))
        by (apply (Permutation_in _ (Permutation_sym Hp)); left; reflexivity).
      destruct Hin_a as [E|Hin_a]; [congruence|].
      destruct Hin_b as [E|Hin_b]; [congruence|].
      apply Hanti.
      - left. reflexivity.
      - right. exact Hin_b.
      - apply Ha. exact Hin_b.
      - apply Hb. exact Hin_a. }
    subst b. f_equal. apply IH.
    + eapply Permutation_cons_inv. exact Hp.
    + exact H1.
    + exact H2.
    + intros x y Hx Hy. apply Hanti; right; assumption.
Qed.

Section PredictFacts.

Variable argsort : sorter.

Lemma predict_ok_iff self (X : list vector) (ps : list Z) :
  predict argsort self X = Ok ps
  <-> Forall2 (fun x p => predict_one argsort self x = Ok p) X ps.
Proof.
  revert ps. induction X as [|x X IH]; intros ps; simpl.
  - split.
    + intros H. injection H as <-. constructor.
    + intros H. inversion H. reflexivity.
  - split.
    + intros H. destruct (predict_one argsort self x) as [p|e] eqn:Ep;
        cbn [bind] in H; [|discriminate].
      destruct (predict argsort self X) as [ps'|e] eqn:Eps; cbn [bind] in H;
        [|discriminate].
      injection H as <-. constructor; [exact Ep|]. apply IH. reflexivity.
    + intros H. inversion H as [|? p ? ps' Hp Hps]; subst.
      rewrite Hp. cbn [bind]. apply IH in Hps. rewrite Hps. reflexivity.
Qed.

Lemma predict_singleton self (x : vector) (p : Z) :
  predict argsort self [x] = Ok [p] <-> predict_one argsort self x = Ok p.
Proof.
  cbn [predict]. destruct (predict_one argsort self x) as [q|e]; cbn [bind].
  - split; intros H; injection H as <-; reflexivity.
  - split; discriminate.
Qed.

(** X10. predict answers the queries one by one and in their order: when
    it returns, the list has one label per query, the i-th being the
    prediction for the i-th query alone. *)
Theorem predict_one_label_per_query self (X : list vector) (ps : list Z) :
  predict argsort self X = Ok ps ->
  List.length ps = List.length X
  /\ forall i x, nth_error X i = Some x ->
       exists p, nth_error ps i = Some p /\ predict argsort self [x] = Ok [p].
Proof.
  intros H. apply predict_ok_iff in H. split.
  - symmetry. eapply Forall2_length. exact H.
  - induction H as [|x p X ps Hp _ IH]; intros i y Hi.
    + destruct i; discriminate.
    + destruct i as [|i]; simpl in Hi.
      * injection Hi as <-. exists p. split; [reflexivity|].
        apply predict_singleton. exact Hp.
      * apply IH. exact Hi.
Qed.

(** X11. predict stops at the first query it cannot answer: it fails with
    an error exactly when some query fails with that error on its own and
    all the queries before it are answered. *)
Theorem predict_fails_at_first_bad_query self (X : list vector) (e : exn) :
  predict argsort self X = Raise e
  <-> exists front q back,
        X = front ++ q :: back
        /\ (exists ps, predict argsort self front = Ok ps)
        /\ predict argsort self [q] = Raise e.
Proof.
  split.
  - induction X as [|x X IH]; intros H; simpl in H; [discriminate|].
    destruct (predict_one argsort self x) as [p|e'] eqn:Ep; cbn [bind] in H.
    + destruct (predict argsort self X) as [ps|e''] eqn:Eps; cbn [bind] in H;
        [discriminate|].
      injection H as ->.
      destruct (IH eq_refl) as (front & q & back & -> & (ps & Hps) & Hq).
      exists (x :: front), q, back. split; [reflexivity|]. split; [|exact Hq].
      exists (p :: ps). cbn [predict]. rewrite Ep, Hps. reflexivity.
    + injection H as ->. exists [], x, X. split; [reflexivity|].
      split; [exists []; reflexivity|].
      cbn [predict]. rewrite Ep. reflexivity.
  - intros (front & q & back & -> & (ps & Hps) & Hq).
    rewrite predict_app, Hps. cbn [bind predict] in *.
    destruct (predict_one argsort self q) as [p|e']; cbn [bind] in *; [discriminate|].
    exact Hq.
Qed.

Hypothesis argsort_sorts : sorts argsort.

Lemma distances_scalars self (Xt : list vector) (n : nat) (x : vector) :
  X_train self = Some Xt ->
  Forall (fun t => List.length t = n) Xt ->
  scalar_metric (dist_metric self) n ->
  List.length x = n ->
  exists ds,
    distances self x = Ok (Scalars ds)
    /\ List.length ds = List.length Xt
    /\ (forall i t, nth_error Xt i = Some t ->
                    distance_between self x t = Ok (DScalar (nth i ds NaN))).
Proof.
  intros HX Hdim Hm Hx.
  destruct (mapM_scalars (distance_between self x) Xt) as (ds & Hds & Hdl & Hnth).
  { eapply Forall_impl; [|exact Hdim]. intros t Ht.
    eapply scalar_distance_total; eassumption. }
  exists ds. split; [|split; assumption].
  unfold distances. rewrite HX. cbn [getattr bind]. rewrite Hds. cbn [bind].
  unfold np_array. rewrite all_scalars_map. reflexivity.
Qed.

Lemma predict_one_of_scalars self (yt : list Z) (x : vector) (ds : list scalar) :
  distances self x = Ok (Scalars ds) ->
  y_train self = Some yt ->
  (List.length ds <= List.length yt)%nat ->
  k_nearest argsort self x = Ok (Arr1 (slice_to (k self) (argsort ds)))
  /\ predict_one argsort self x
     = _most_common_ (Arr1 (map (fun i => nth i yt 0) (slice_to (k self) (argsort ds)))).
Proof.
  intros Hd Hy Hlen.
  assert (Hk : k_nearest argsort self x = Ok (Arr1 (slice_to (k self) (argsort ds)))).
  { unfold k_nearest. rewrite Hd. reflexivity. }
  split; [exact Hk|].
  unfold predict_one. rewrite Hk, Hy. cbn [getattr bind take].
  rewrite take_ok; [reflexivity|].
  apply Forall_forall. intros i Hi. apply in_slice_to in Hi.
  apply (argsort_in argsort argsort_sorts) in Hi. lia.
Qed.

(** X12. A predicted label is never invented: on a training set with as
    many labels as points and one dimensionality, with a metric that
    yields scalars, the prediction for a query is the label of one of the
    training points selected as its neighbours. *)
Theorem prediction_is_neighbour_label self (Xt : list vector) (yt : list Z) (n : nat)
        (x : vector) (p : Z) :
  fitted_on self Xt yt ->
  List.length Xt = List.length yt ->
  Forall (fun t => List.length t = n) Xt ->
  scalar_metric (dist_metric self) n ->
  List.length x = n ->
  predict argsort self [x] = Ok [p] ->
  exists sel i,
    k_nearest argsort self x = Ok (Arr1 sel)
    /\ In i sel
    /\ nth_error yt i = Some p.
Proof.
  intros [HX Hy] Hlen Hdim Hm Hx Hp. apply predict_singleton in Hp.
  destruct (distances_scalars self Xt n x HX Hdim Hm Hx) as (ds & Hd & Hdl & _).
  destruct (predict_one_of_scalars self yt x ds Hd Hy ltac:(lia)) as [Hk Hone].
  rewrite Hone in Hp. apply most_common_ok_inv in Hp. destruct Hp as (_ & _ & Hin).
  apply in_map_iff in Hin. destruct Hin as (i & Hi & Hsel).
  exists (slice_to (k self) (argsort ds)), i.
  split; [exact Hk|]. split; [exact Hsel|].
  rewrite <- Hi. apply nth_error_nth'.
  apply in_slice_to in Hsel. apply (argsort_in argsort argsort_sorts) in Hsel. lia.
Qed.

(** X13. With k = 0 no neighbour is selected and the vote has nothing to
    count: predict fails on the first query (argmax of an empty sequence). *)
Theorem k_zero_fails self (Xt : list vector) (yt : list Z) (n : nat)
        (x : vector) (X : list vector) :
  fitted_on self Xt yt ->
  List.length Xt = List.length yt ->
  Forall (fun t => List.length t = n) Xt ->
  scalar_metric (dist_metric self) n ->
  List.length x = n ->
  k self = 0 ->
  predict argsort self (x :: X) = Raise (ValueError EmptyArgmax).
Proof.
  intros [HX Hy] Hlen Hdim Hm Hx Hk.
  destruct (distances_scalars self Xt n x HX Hdim Hm Hx) as (ds & Hd & Hdl & _).
  destruct (predict_one_of_scalars self yt x ds Hd Hy ltac:(lia)) as [_ Hone].
  cbn [predict]. rewrite Hone, Hk. reflexivity.
Qed.

Lemma slice_to_negative {A : Type} (k0 : Z) (l : list A) :
  k0 < 0 -> slice_to k0 l = slice_to (Z.max 0 (Z.of_nat (List.length l) + k0)) l.
Proof.
  intros Hk. unfold slice_to.
  destruct (Z.ltb_spec k0 0); [|lia].
  destruct (Z.ltb_spec (Z.max 0 (Z.of_nat (List.length l) + k0)) 0); [lia|].
  f_equal. lia.
Qed.

(** X14. A negative k is not rejected: the slice [:k] then drops the last
    -k entries of the order, so predict behaves exactly as with
    k = max(0, number of training points + k), the farthest -k points
    being left out of the vote. *)
Theorem negative_k_drops_farthest self (Xt : list vector) (yt : list Z) (n : nat)
        (X : list vector) :
  fitted_on self Xt yt ->
  List.length Xt = List.length yt ->
  Forall (fun t => List.length t = n) Xt ->
  scalar_metric (dist_metric self) n ->
  Forall (fun x => List.length x = n) X ->
  k self < 0 ->
  predict argsort self X
  = predict argsort (with_k self (Z.max 0 (Z.of_nat (List.length Xt) + k self))) X.
Proof.
  intros [HX Hy] Hlen Hdim Hm HXs Hk.
  induction HXs as [|x X Hx _ IH]; [reflexivity|].
  cbn [predict]. rewrite IH. f_equal.
  destruct (distances_scalars self Xt n x HX Hdim Hm Hx) as (ds & Hd & Hdl & _).
  destruct (predict_one_of_scalars self yt x ds Hd Hy ltac:(lia)) as [_ Hone].
  destruct (predict_one_of_scalars
              (with_k self (Z.max 0 (Z.of_nat (List.length Xt) + k self))) yt x ds)
    as [_ Hone']; [rewrite distances_with_k; exact Hd | exact Hy | lia |].
  rewrite Hone, Hone'. cbn [with_k k].
  rewrite (slice_to_negative (k self) (argsort ds) Hk).
  rewrite (argsort_length argsort argsort_sorts), Hdl. reflexivity.
Qed.

(** X15. fit accepts an empty training set, but predict cannot use it:
    with no training point, whatever the metric name, k and the query are,
    predict fails on the first query (argmax of an empty sequence). *)
Theorem empty_training_set_fails self (yt : list Z) (x : vector) (X : list vector) :
  fitted_on self [] yt ->
  predict argsort self (x :: X) = Raise (ValueError EmptyArgmax).
Proof.
  intros [HX Hy]. cbn [predict].
  unfold predict_one, k_nearest, distances. rewrite HX, Hy.
  cbn [getattr bind mapM np_array all_scalars np_argsort slice_rows].
  destruct (argsort_sorts []) as [Hp _]. simpl in Hp.
  apply Permutation_sym, Permutation_nil in Hp. rewrite Hp.
  unfold slice_to. rewrite !firstn_nil.
  destruct (k self <? 0); reflexivity.
Qed.

(** X16. With k = 1 predict is the nearest-neighbour rule: on a non-empty
    dataset of the data model, the prediction for a query is the label of
    a training point that is at least as close to the query as every
    training point. *)
Theorem one_nearest_neighbour self (Xt : list vector) (yt : list Z) (n : nat)
        (x : vector) :
  fitted_on self Xt yt ->
  valid_dataset Xt yt n ->
  Xt <> [] ->
  scalar_metric (dist_metric self) n ->
  List.length x = n ->
  k self = 1 ->
  exists i t p s,
    nth_error Xt i = Some t
    /\ nth_error yt i = Some p
    /\ predict argsort self [x] = Ok [p]
    /\ distance_between self x t = Ok (DScalar s)
    /\ forall t', In t' Xt ->
         exists s', distance_between self x t' = Ok (DScalar s')
                    /\ scalar_leb s s' = true.
Proof.
  intros [HX Hy] [Hlen Hdim Hlab] Hne Hm Hx Hk.
  destruct (distances_scalars self Xt n x HX Hdim Hm Hx) as (ds & Hd & Hdl & Hnth).
  destruct (predict_one_of_scalars self yt x ds Hd Hy ltac:(lia)) as [_ Hone].
  assert (H0 : (0 < List.length ds)%nat).
  { rewrite Hdl. destruct Xt; [congruence | simpl; lia]. }
  destruct (nearest_first argsort argsort_sorts ds O H0) as (p0 & Hsel & Hp0 & _).
  destruct (nth_error Xt p0) as [t|] eqn:HXp.
  2:{ apply nth_error_None in HXp. lia. }
  destruct (nth_error yt p0) as [p|] eqn:Hyp.
  2:{ apply nth_error_None in Hyp. lia. }
  exists p0, t, p, (nth p0 ds NaN).
  split; [exact HXp|]. split; [exact Hyp|]. split; [|split].
  - apply predict_singleton. rewrite Hone, Hk, Hsel. cbn [map].
    rewrite (nth_error_nth _ _ 0 Hyp). apply most_common_singleton.
    rewrite Forall_forall in Hlab. apply Hlab. eapply nth_error_In. exact Hyp.
  - apply Hnth. exact HXp.
  - intros t' Hin. apply In_nth_error in Hin. destruct Hin as [j Hj].
    exists (nth j ds NaN). split; [apply Hnth; exact Hj|].
    assert (Hjl : (j < List.length ds)%nat).
    { rewrite Hdl. apply nth_error_Some. congruence. }
    destruct (nearest_first argsort argsort_sorts ds j Hjl) as (p0' & Hsel' & _ & Hle).
    rewrite Hsel in Hsel'. injection Hsel' as <-. exact Hle.
Qed.

(** X17. When k is at least the number of training points (k equal to it
    included), the prediction no longer depends on the query, the metric
    or the sort: on a non-empty dataset of the data model every query gets
    the majority label of the whole training set. *)
Theorem k_covers_training_set self (Xt : list vector) (yt : list Z) (n : nat)
        (X : list vector) :
  fitted_on self Xt yt ->
  valid_dataset Xt yt n ->
  Xt <> [] ->
  scalar_metric (dist_metric self) n ->
  Forall (fun x => List.length x = n) X ->
  Z.of_nat (List.length Xt) <= k self ->
  exists m,
    _most_common_ (Arr1 yt) = Ok m
    /\ predict argsort self X = Ok (repeat m (List.length X)).
Proof.
  intros [HX Hy] [Hlen Hdim Hlab] Hne Hm HXs Hk.
  destruct (most_common_in yt) as (m & Hmc & _).
  { intros E. rewrite E in Hlen. destruct Xt; [congruence | discriminate]. }
  { exact Hlab. }
  exists m. split; [exact Hmc|].
  apply predict_repeat. intros x Hin.
  rewrite Forall_forall in HXs.
  destruct (distances_scalars self Xt n x HX Hdim Hm (HXs x Hin)) as (ds & Hd & Hdl & _).
  destruct (predict_one_of_scalars self yt x ds Hd Hy ltac:(lia)) as [_ Hone].
  rewrite Hone, <- Hmc.
  assert (Hs : slice_to (k self) (argsort ds) = argsort ds).
  { unfold slice_to. destruct (Z.ltb_spec (k self) 0); [lia|].
    apply firstn_all2. rewrite (argsort_length argsort argsort_sorts). lia. }
  rewrite Hs. apply most_common_perm.
  destruct (argsort_sorts ds) as [Hperm _].
  eapply perm_trans; [apply Permutation_map; exact Hperm|].
  rewrite Hdl, Hlen, map_nth_seq. apply Permutation_refl.
Qed.

End PredictFacts.

Lemma all_none_const {A : Type} (l : list A) :
  all_none (map (fun _ => DNone) l) = true.
Proof. induction l as [|a l IH]; simpl; [reflexivity | exact IH]. Qed.

Lemma distance_between_unknown self (x t : vector) :
  ~ In (dist_metric self) code_metrics ->
  List.length x = List.length t ->
  distance_between self x t = Ok DNone.
Proof.
  intros Hm Hlen. destruct (not_code_metric _ Hm) as (E1 & E2 & E3 & E4).
  unfold distance_between. rewrite (np_array2_ok x t Hlen). cbn [bind].
  unfold _calculate_distance_. rewrite E1, E2, E3, E4. reflexivity.
Qed.

Lemma distances_unknown self (Xt : list vector) (n : nat) (x : vector) :
  ~ In (dist_metric self) code_metrics ->
  X_train self = Some Xt ->
  Xt <> [] ->
  Forall (fun t => List.length t = n) Xt ->
  List.length x = n ->
  distances self x = Ok (Nones (List.length Xt)).
Proof.
  intros Hm HX Hne Hdim Hx. unfold distances. rewrite HX. cbn [getattr bind].
  rewrite (mapM_ok (distance_between self x) (fun _ => DNone)).
  - cbn [bind]. unfold np_array.
    destruct Xt as [|t0 Xt']; [congruence|].
    cbn [map all_scalars all_vectors all_none]. rewrite all_none_const.
    cbn [List.length]. rewrite length_map. reflexivity.
  - intros t Ht. apply distance_between_unknown; [exact Hm|].
    rewrite Forall_forall in Hdim. rewrite (Hdim t Ht). exact Hx.
Qed.

(** X18. With a metric name the code does not test for, every distance is
    None.  Sorting two or more None values compares them, which raises:
    on a training set of at least two points predict fails with TypeError
    on the first query of the training dimensionality. *)
Theorem unknown_metric_type_error (argsort : sorter) self (Xt : list vector)
        (yt : list Z) (n : nat) (x : vector) (X : list vector) :
  ~ In (dist_metric self) code_metrics ->
  fitted_on self Xt yt ->
  (2 <= List.length Xt)%nat ->
  Forall (fun t => List.length t = n) Xt ->
  List.length x = n ->
  predict argsort self (x :: X) = Raise TypeError.
Proof.
  intros Hm [HX Hy] H2 Hdim Hx.
  assert (Hne : Xt <> []) by (destruct Xt; [simpl in H2; lia | discriminate]).
  cbn [predict]. unfold predict_one, k_nearest.
  rewrite (distances_unknown self Xt n x Hm HX Hne Hdim Hx). cbn [bind np_argsort].
  destruct (Nat.leb_spec (List.length Xt) 1); [lia | reflexivity].
Qed.

(** X19. With a metric name the code does not test for and a single
    training point there is nothing to compare: for k >= 1 every query of
    the training dimensionality is given the label of that point, provided
    the label is not negative. *)
Theorem unknown_metric_single_point (argsort : sorter) self (t : vector) (v : Z)
        (X : list vector) :
  ~ In (dist_metric self) code_metrics ->
  fitted_on self [t] [v] ->
  0 <= v ->
  1 <= k self ->
  Forall (fun x => List.length x = List.length t) X ->
  predict argsort self X = Ok (repeat v (List.length X)).
Proof.
  intros Hm [HX Hy] Hv Hk HXs. apply predict_repeat.
  intros x Hin. rewrite Forall_forall in HXs.
  unfold predict_one, k_nearest.
  rewrite (distances_unknown self [t] (List.length t) x Hm HX ltac:(discriminate)
             ltac:(repeat constructor) (HXs x Hin)).
  rewrite Hy. cbn.
  assert (Hs : slice_to (k self) [O] = [O]).
  { unfold slice_to. destruct (Z.ltb_spec (k self) 0); [lia|].
    apply firstn_all2. simpl. lia. }
  rewrite Hs. cbn. fold (_most_common_ (Arr1 [v])). apply most_common_singleton. exact Hv.
Qed.

(** X20. Only ties leave room to the sort: when the distances from a query
    to the training points are pairwise different, any two sorts that meet
    the contract of np.argsort select the same neighbours in the same
    order and give the same prediction. *)
Theorem no_ties_sort_independent (argsort1 argsort2 : sorter) self (x : vector)
        (ds : list scalar) :
  sorts argsort1 -> sorts argsort2 ->
  distances self x = Ok (Scalars ds) ->
  no_ties ds ->
  k_nearest argsort1 self x = k_nearest argsort2 self x
  /\ predict argsort1 self [x] = predict argsort2 self [x].
Proof.
  intros H1 H2 Hd Hties.
  assert (E : argsort1 ds = argsort2 ds).
  { destruct (H1 ds) as [Hp1 Hs1]. destruct (H2 ds) as [Hp2 Hs2].
    apply (sorted_unique (dist_le ds)).
    - eapply perm_trans; [exact Hp1 | apply Permutation_sym; exact Hp2].
    - exact Hs1.
    - exact Hs2.
    - intros i j Hi Hj Hij Hji. apply Hties; try assumption.
      + apply (argsort_in argsort1 H1). exact Hi.
      + apply (argsort_in argsort1 H1). exact Hj. }
  assert (Ek : k_nearest argsort1 self x = k_nearest argsort2 self x).
  { unfold k_nearest. rewrite Hd. cbn [bind np_argsort]. rewrite E. reflexivity. }
  split; [exact Ek|].
  cbn [predict]. unfold predict_one. rewrite Ek. reflexivity.
Qed.

(** ** Properties of evaluate *)

Lemma Zpos_of_nat (n : nat) : n <> O -> Z.pos (Pos.of_nat n) = Z.of_nat n.
Proof.
  intros Hn. rewrite <- (positive_nat_Z (Pos.of_nat n)), Nat2Pos.id by exact Hn.
  reflexivity.
Qed.

Section EvaluateFacts.

Variable argsort : sorter.

Lemma evaluate_of_predictions self (X : list vector) (y ps : list Z) :
  predict argsort self X = Ok ps ->
  List.length ps = List.length y ->
  evaluate argsort self X y
  = Ok (true_divide (count_true (zip_with Z.eqb ps y)) (List.length y)).
Proof.
  intros Hp Hlen. unfold evaluate. rewrite Hp. cbn [bind]. unfold eq_broadcast.
  rewrite Hlen, Nat.eqb_refl. reflexivity.
Qed.

Lemma predict_length self (X : list vector) (ps : list Z) :
  predict argsort self X = Ok ps -> List.length ps = List.length X.
Proof.
  revert ps. induction X as [|x X IH]; intros ps H; simpl in H.
  - injection H as <-. reflexivity.
  - destruct (predict_one argsort self x) as [p|e]; cbn [bind] in H; [|discriminate].
    destruct (predict argsort self X) as [ps'|e]; cbn [bind] in H; [|discriminate].
    injection H as <-. simpl. f_equal. apply IH. reflexivity.
Qed.

Lemma fraction_in_unit (c n : nat) :
  n <> O -> (c <= n)%nat ->
  (0 <= Z.of_nat c # Pos.of_nat n)%Q /\ (Z.of_nat c # Pos.of_nat n <= 1)%Q.
Proof.
  intros Hn Hc. unfold Qle. cbn [Qnum Qden]. rewrite (Zpos_of_nat n Hn). lia.
Qed.

(** X21. When the queries are answered and there are as many true labels
    as queries (at least one), evaluate returns the number of positions
    where prediction and true label agree divided by the number of
    labels, a number between 0 and 1. *)
Theorem accuracy_is_fraction self (X : list vector) (y ps : list Z) :
  predict argsort self X = Ok ps ->
  List.length X = List.length y ->
  y <> [] ->
  exists q,
    evaluate argsort self X y = Ok (Real q)
    /\ (q == inject_Z (Z.of_nat (count_true (zip_with Z.eqb ps y)))
             / inject_Z (Z.of_nat (List.length y)))%Q
    /\ (0 <= q <= 1)%Q.
Proof.
  intros Hp Hlen Hne.
  assert (Hl : List.length ps = List.length y).
  { rewrite (predict_length self X ps Hp). exact Hlen. }
  assert (Hn : List.length y <> O) by (destruct y; [congruence | discriminate]).
  rewrite (evaluate_of_predictions self X y ps Hp Hl).
  rewrite true_divide_real by exact Hn.
  eexists. split; [reflexivity|]. split.
  - rewrite (Qmake_Qdiv _ (Pos.of_nat (List.length y))).
    rewrite (Zpos_of_nat _ Hn). reflexivity.
  - apply fraction_in_unit; [exact Hn|].
    pose proof (count_true_le (zip_with Z.eqb ps y)) as Hle.
    rewrite zip_with_length in Hle by exact Hl. lia.
Qed.

(** X22. evaluate has no check of its own.  An error of predict passes
    through it unchanged.  When the queries are answered but the numbers
    of queries and of true labels differ, neither being one, the
    comparison of predictions with labels fails (shapes that cannot be
    broadcast). *)
Theorem evaluate_errors self (X : list vector) (y : list Z) :
  (forall e, predict argsort self X = Raise e -> evaluate argsort self X y = Raise e)
  /\ (forall ps, predict argsort self X = Ok ps ->
        List.length X <> List.length y ->
        List.length X <> 1%nat -> List.length y <> 1%nat ->
        evaluate argsort self X y = Raise (ValueError Broadcast)).
Proof.
  split.
  - intros e He. unfold evaluate. rewrite He. reflexivity.
  - intros ps Hp Hxy Hx Hy. unfold evaluate. rewrite Hp. cbn [bind].
    pose proof (predict_length self X ps Hp) as Hl.
    unfold eq_broadcast.
    destruct (Nat.eqb_spec (List.length ps) (List.length y)); [lia|].
    destruct (Nat.eqb_spec (List.length ps) 1); [lia|].
    destruct (Nat.eqb_spec (List.length y) 1); [lia|].
    reflexivity.
Qed.

Lemma count_true_eqb (v : Z) (ps : list Z) :
  count_true (map (fun p => Z.eqb p v) ps) = count v ps.
Proof.
  unfold count_true, count. induction ps as [|p ps IH]; simpl; [reflexivity|].
  destruct (Z.eqb_spec p v) as [->|Hne]; destruct (Z.eq_dec _ _); simpl;
    try congruence; try lia.
Qed.

(** X23. A single true label is broadcast against all the predictions:
    evaluate(X, [v]) returns the number of queries predicted as v, which
    is above 1 as soon as two of them are. *)
Theorem evaluate_single_label self (X : list vector) (ps : list Z) (v : Z) :
  predict argsort self X = Ok ps ->
  evaluate argsort self X [v] = Ok (Real (Z.of_nat (count v ps) # 1)).
Proof.
  intros Hp. unfold evaluate. rewrite Hp. cbn [bind]. unfold eq_broadcast.
  cbn [List.length hd].
  destruct (Nat.eqb_spec (List.length ps) 1) as [E|E].
  - destruct ps as [|p [|p' ps]]; try discriminate.
    cbn [zip_with bind]. rewrite <- (count_true_eqb v [p]). reflexivity.
  - cbn [Nat.eqb bind]. rewrite count_true_eqb. reflexivity.
Qed.

Lemma count_true_all (ps y : list Z) :
  List.length ps = List.length y ->
  count_true (zip_with Z.eqb ps y) = List.length y -> ps = y.
Proof.
  revert y. induction ps as [|p ps IH]; intros [|v y] Hlen H; try discriminate.
  - reflexivity.
  - unfold count_true in *. simpl in *.
    pose proof (count_true_le (zip_with Z.eqb ps y)) as Hle. unfold count_true in Hle.
    rewrite zip_with_length in Hle by lia.
    destruct (Z.eqb_spec p v) as [->|Hne]; simpl in H.
    + f_equal. apply IH; lia.
    + lia.
Qed.

(** X24. For as many true labels as queries (at least one), evaluate
    returns exactly 1.0 if and only if every prediction equals its true
    label. *)
Theorem accuracy_one_iff_all_correct self (X : list vector) (y ps : list Z) :
  predict argsort self X = Ok ps ->
  List.length X = List.length y ->
  y <> [] ->
  (is_one (evaluate argsort self X y) <-> ps = y).
Proof.
  intros Hp Hlen Hne.
  assert (Hl : List.length ps = List.length y).
  { rewrite (predict_length self X ps Hp). exact Hlen. }
  assert (Hn : List.length y <> O) by (destruct y; [congruence | discriminate]).
  rewrite (evaluate_of_predictions self X y ps Hp Hl). split.
  - intros (q & Hq & H1). rewrite true_divide_real in Hq by exact Hn.
    injection Hq as <-. apply count_true_all; [exact Hl|].
    unfold Qeq in H1. cbn [Qnum Qden] in H1. rewrite (Zpos_of_nat _ Hn) in H1. lia.
  - intros ->. rewrite count_true_eqb_self. apply true_divide_same. exact Hn.
Qed.

End EvaluateFacts.

(** ** Properties of the experiment *)

Section ExperimentFacts.

Variable argsort : sorter.

Lemma run_tests_trials (splits : list split) (model : KNeighborsClassifier)
      (accuracies : list scalar) :
  k model = default_k -> dist_metric model = "euclidean"%string ->
  match run_tests argsort model accuracies splits, mapM (trial argsort) splits with
  | Ok (m, out), Ok new =>
      out = accuracies ++ new
      /\ k m = default_k /\ dist_metric m = "euclidean"%string
  | Raise e, Raise e' => e = e'
  | _, _ => False
  end.
Proof.
  revert model accuracies.
  induction splits as [|s splits IH]; intros model accuracies Hk Hm; simpl.
  - rewrite app_nil_r. auto.
  - unfold fit. cbn [bind]. rewrite Hk, Hm.
    change (evaluate argsort
              {| k := default_k; dist_metric := "euclidean";
                 X_train := Some (s_X_train s); y_train := Some (s_y_train s) |}
              (s_X_test s) (s_y_test s)) with (trial argsort s).
    destruct (trial argsort s) as [a|e]; cbn [bind]; [|reflexivity].
    specialize (IH {| k := default_k; dist_metric := "euclidean";
                      X_train := Some (s_X_train s); y_train := Some (s_y_train s) |}
                   (accuracies ++ [a]) eq_refl eq_refl).
    destruct (run_tests argsort _ (accuracies ++ [a]) splits) as [[m out]|e];
      destruct (mapM (trial argsort) splits) as [new|e']; cbn [bind];
      try contradiction; try exact IH.
    destruct IH as (-> & Hk' & Hm'). rewrite <- app_assoc. auto.
Qed.

(** X25. In the experiment the one classifier is fitted again in every
    iteration, and nothing of an earlier iteration survives the next fit:
    the accuracies collected are exactly those of independent trials, each
    on a fresh classifier (k = 5, 'euclidean') fitted on its own split,
    one accuracy per split, and the run fails exactly when a trial fails,
    with the error of the first failing trial. *)
Theorem experiment_is_independent_trials (splits : list split) :
  (forall accuracies,
     (exists model, experiment argsort splits = Ok (model, accuracies))
     <-> mapM (trial argsort) splits = Ok accuracies)
  /\ (forall e, experiment argsort splits = Raise e
                <-> mapM (trial argsort) splits = Raise e)
  /\ (forall model accuracies,
        experiment argsort splits = Ok (model, accuracies) ->
        List.length accuracies = List.length splits
        /\ k model = default_k /\ dist_metric model = "euclidean"%string).
Proof.
  pose proof (run_tests_trials splits
                {| k := default_k; dist_metric := "euclidean";
                   X_train := None; y_train := None |} [] eq_refl eq_refl) as H.
  unfold experiment, __init__. cbn [bind].
  destruct (run_tests argsort _ [] splits) as [[m out]|e] eqn:Er;
    destruct (mapM (trial argsort) splits) as [new|e'] eqn:Em; try contradiction.
  - destruct H as (-> & Hk & Hm). simpl. split; [|split].
    + intros accs. split.
      * intros [model E]. congruence.
      * intros E. exists m. congruence.
    + intros e. split; discriminate.
    + intros model accs E. injection E as <- <-.
      split; [|split; assumption].
      eapply mapM_length. exact Em.
  - subst e'. split; [|split].
    + intros accs. split; [intros [model E]; discriminate | discriminate].
    + intros e0. split; congruence.
    + intros model accs E. discriminate.
Qed.

Hypothesis argsort_sorts : sorts argsort.

Lemma trial_usable (s : split) :
  usable_split s ->
  exists q, trial argsort s = Ok (Real q) /\ (0 <= q <= 1)%Q.
Proof.
  intros (n & Hvd & Hne & Hdim & Hlen & Hy).
  destruct (predict_ok argsort argsort_sorts
              (fitted default_k "euclidean" (s_X_train s) (s_y_train s))
              (s_X_train s) (s_y_train s) n (s_X_test s))
    as (ps & Hps & Hl).
  - apply fitted_on_fitted.
  - exact Hvd.
  - exact Hne.
  - left. reflexivity.
  - unfold default_k. simpl. lia.
  - exact Hdim.
  - assert (Hn : List.length (s_y_test s) <> O)
      by (destruct (s_y_test s); [congruence | discriminate]).
    unfold trial.
    rewrite (evaluate_of_predictions argsort _ _ _ ps Hps) by congruence.
    rewrite true_divide_real by exact Hn.
    eexists. split; [reflexivity|].
    apply fraction_in_unit; [exact Hn|].
    pose proof (count_true_le (zip_with Z.eqb ps (s_y_test s))) as Hle.
    rewrite zip_with_length in Hle by congruence. lia.
Qed.

(** X26. When every split drawn is usable (a non-empty training part that
    is a dataset of the data model, a non-empty test part of the same
    dimensionality with one label per query), the experiment runs to the
    end without an error and collects one accuracy per split, each a
    number between 0 and 1. *)
Theorem experiment_succeeds (splits : list split) :
  Forall usable_split splits ->
  exists model accuracies,
    experiment argsort splits = Ok (model, accuracies)
    /\ List.length accuracies = List.length splits
    /\ Forall (fun a => exists q, a = Real q /\ (0 <= q <= 1)%Q) accuracies.
Proof.
  intros Hall.
  assert (Hm : exists accs, mapM (trial argsort) splits = Ok accs
             /\ Forall (fun a => exists q, a = Real q /\ (0 <= q <= 1)%Q) accs).
  { induction Hall as [|s splits Hs _ (accs & Haccs & Hrange)].
    - exists []. split; [reflexivity | constructor].
    - destruct (trial_usable s Hs) as (q & Hq & Hr).
      exists (Real q :: accs). simpl. rewrite Hq, Haccs. split; [reflexivity|].
      constructor; [exists q; auto | exact Hrange]. }
  destruct Hm as (accs & Haccs & Hrange).
  pose proof (run_tests_trials splits
                {| k := default_k; dist_metric := "euclidean";
                   X_train := None; y_train := None |} [] eq_refl eq_refl) as H.
  rewrite Haccs in H.
  unfold experiment, __init__. cbn [bind].
  destruct (run_tests argsort _ [] splits) as [[m out]|e]; [|contradiction].
  destruct H as (-> & _). exists m, accs. split; [reflexivity|].
  split; [|exact Hrange]. eapply mapM_length. exact Haccs.
Qed.

End ExperimentFacts.

(** ** The added properties at concrete inputs *)

Lemma not_code_metric_cosine : ~ In "cosine"%string code_metrics.
Proof. simpl. intros [H|[H|[H|[H|[]]]]]; discriminate. Qed.

Lemma plane_valid : valid_dataset plane_X plane_y 2.
Proof. constructor; [reflexivity | repeat constructor | repeat constructor; lia]. Qed.

Lemma line_valid : valid_dataset line_X line_y 1.
Proof. constructor; [reflexivity | repeat constructor | repeat constructor; lia]. Qed.

Lemma predict_one_label_per_query_witness :
  List.length [0; 1] = List.length [[1; 1]; [9; 9]]%Q
  /\ forall i x, nth_error [[1; 1]; [9; 9]]%Q i = Some x ->
       exists p, nth_error [0; 1] i = Some p
                 /\ predict stable_argsort (fitted 1 "euclidean" plane_X plane_y) [x]
                    = Ok [p].
Proof.
  apply (predict_one_label_per_query stable_argsort
           (fitted 1 "euclidean" plane_X plane_y) [[1; 1]; [9; 9]]%Q [0; 1]).
  reflexivity.
Defined.

Lemma predict_fails_at_first_bad_query_witness :
  predict stable_argsort (fitted 1 "euclidean" plane_X plane_y)
          [[1; 1]; [1; 2; 3]; [9; 9]]%Q = Raise (ValueError Inhomogeneous)
  <-> exists front q back,
        [[1; 1]; [1; 2; 3]; [9; 9]]%Q = front ++ q :: back
        /\ (exists ps, predict stable_argsort (fitted 1 "euclidean" plane_X plane_y) front
                       = Ok ps)
        /\ predict stable_argsort (fitted 1 "euclidean" plane_X plane_y) [q]
           = Raise (ValueError Inhomogeneous).
Proof.
  exact (predict_fails_at_first_bad_query stable_argsort
           (fitted 1 "euclidean" plane_X plane_y)
           [[1; 1]; [1; 2; 3]; [9; 9]]%Q (ValueError Inhomogeneous)).
Defined.

Lemma prediction_is_neighbour_label_witness :
  exists sel i,
    k_nearest stable_argsort (fitted 3 "euclidean" line_X line_y) [1 # 2]%Q
    = Ok (Arr1 sel)
    /\ In i sel
    /\ nth_error line_y i = Some 0.
Proof.
  apply (prediction_is_neighbour_label stable_argsort stable_argsort_sorts
           (fitted 3 "euclidean" line_X line_y) line_X line_y 1%nat [1 # 2]%Q 0).
  - apply fitted_on_fitted.
  - reflexivity.
  - repeat constructor.
  - left. reflexivity.
  - reflexivity.
  - reflexivity.
Defined.

Lemma k_zero_fails_witness :
  predict stable_argsort (fitted 0 "euclidean" plane_X plane_y) ([1; 1]%Q :: [[9; 9]%Q])
  = Raise (ValueError EmptyArgmax).
Proof.
  apply (k_zero_fails stable_argsort stable_argsort_sorts
           (fitted 0 "euclidean" plane_X plane_y) plane_X plane_y 2%nat).
  - apply fitted_on_fitted.
  - reflexivity.
  - repeat constructor.
  - left. reflexivity.
  - reflexivity.
  - reflexivity.
Defined.

Lemma negative_k_drops_farthest_witness :
  predict stable_argsort (fitted (-4) "euclidean" line_X line_y) [[9]; [1 # 2]]%Q
  = predict stable_argsort
      (with_k (fitted (-4) "euclidean" line_X line_y)
              (Z.max 0 (Z.of_nat (List.length line_X)
                        + k (fitted (-4) "euclidean" line_X line_y))))
      [[9]; [1 # 2]]%Q.
Proof.
  apply (negative_k_drops_farthest stable_argsort stable_argsort_sorts
           (fitted (-4) "euclidean" line_X line_y) line_X line_y 1%nat).
  - apply fitted_on_fitted.
  - reflexivity.
  - repeat constructor.
  - left. reflexivity.
  - repeat constructor.
  - reflexivity.
Defined.

(** With k = -4 and five training points one neighbour is left. *)
Example negative_k_line :
  predict stable_argsort (fitted (-4) "euclidean" line_X line_y) [[9]; [1 # 2]]%Q
  = Ok [1; 0]
  /\ predict stable_argsort (fitted 1 "euclidean" line_X line_y) [[9]; [1 # 2]]%Q
     = Ok [1; 0].
Proof. split; reflexivity. Qed.

Lemma empty_training_set_fails_witness :
  predict stable_argsort (fitted 5 "euclidean" [] []) ([1; 1]%Q :: [])
  = Raise (ValueError EmptyArgmax).
Proof.
  apply (empty_training_set_fails stable_argsort stable_argsort_sorts
           (fitted 5 "euclidean" [] []) []).
  apply fitted_on_fitted.
Defined.

Lemma unknown_metric_type_error_witness :
  predict stable_argsort (fitted 1 "cosine" plane_X plane_y) ([1; 1]%Q :: [])
  = Raise TypeError.
Proof.
  apply (unknown_metric_type_error stable_argsort (fitted 1 "cosine" plane_X plane_y)
           plane_X plane_y 2%nat).
  - exact not_code_metric_cosine.
  - apply fitted_on_fitted.
  - simpl. lia.
  - repeat constructor.
  - reflexivity.
Defined.

Lemma unknown_metric_single_point_witness :
  predict stable_argsort (fitted 5 "cosine" [[0; 0]%Q] [7]) [[1; 1]; [9; 9]]%Q
  = Ok (repeat 7 (List.length [[1; 1]; [9; 9]]%Q)).
Proof.
  apply (unknown_metric_single_point stable_argsort
           (fitted 5 "cosine" [[0; 0]%Q] [7]) [0; 0]%Q 7).
  - exact not_code_metric_cosine.
  - apply fitted_on_fitted.
  - lia.
  - simpl. lia.
  - repeat constructor.
Defined.

Lemma one_nearest_neighbour_witness :
  exists i t p s,
    nth_error plane_X i = Some t
    /\ nth_error plane_y i = Some p
    /\ predict stable_argsort (fitted 1 "euclidean" plane_X plane_y) [[9; 9]%Q] = Ok [p]
    /\ distance_between (fitted 1 "euclidean" plane_X plane_y) [9; 9]%Q t
       = Ok (DScalar s)
    /\ forall t', In t' plane_X ->
         exists s',
           distance_between (fitted 1 "euclidean" plane_X plane_y) [9; 9]%Q t'
           = Ok (DScalar s')
           /\ scalar_leb s s' = true.
Proof.
  apply (one_nearest_neighbour stable_argsort stable_argsort_sorts
           (fitted 1 "euclidean" plane_X plane_y) plane_X plane_y 2%nat [9; 9]%Q).
  - apply fitted_on_fitted.
  - exact plane_valid.
  - discriminate.
  - left. reflexivity.
  - reflexivity.
  - reflexivity.
Defined.

Lemma plane_no_ties : no_ties [Sqrt 2; Sqrt 162].
Proof.
  intros i j Hi Hj Hij Hji. simpl in Hi, Hj.
  destruct i as [|[|i]], j as [|[|j]]; try lia; try reflexivity;
    unfold dist_le in *; simpl in *; discriminate.
Qed.

Lemma no_ties_sort_independent_witness :
  k_nearest stable_argsort (fitted 1 "euclidean" plane_X plane_y) [1; 1]%Q
  = k_nearest reversing_argsort (fitted 1 "euclidean" plane_X plane_y) [1; 1]%Q
  /\ predict stable_argsort (fitted 1 "euclidean" plane_X plane_y) [[1; 1]%Q]
     = predict reversing_argsort (fitted 1 "euclidean" plane_X plane_y) [[1; 1]%Q].
Proof.
  apply (no_ties_sort_independent stable_argsort reversing_argsort
           (fitted 1 "euclidean" plane_X plane_y) [1; 1]%Q [Sqrt 2; Sqrt 162]).
  - exact stable_argsort_sorts.
  - exact reversing_argsort_sorts.
  - reflexivity.
  - exact plane_no_ties.
Defined.

Lemma k_covers_training_set_witness :
  exists m,
    _most_common_ (Arr1 line_y) = Ok m
    /\ predict stable_argsort (fitted 5 "euclidean" line_X line_y) [[1 # 2]; [9]]%Q
       = Ok (repeat m (List.length [[1 # 2]; [9]]%Q)).
Proof.
  apply (k_covers_training_set stable_argsort stable_argsort_sorts
           (fitted 5 "euclidean" line_X line_y) line_X line_y 1%nat).
  - apply fitted_on_fitted.
  - exact line_valid.
  - discriminate.
  - left. reflexivity.
  - repeat constructor.
  - simpl. lia.
Defined.

Lemma accuracy_is_fraction_witness :
  exists q,
    evaluate stable_argsort (fitted 1 "euclidean" plane_X plane_y)
             [[1; 1]; [9; 9]]%Q [0; 0] = Ok (Real q)
    /\ (q == inject_Z (Z.of_nat (count_true (zip_with Z.eqb [0; 1]%Z [0; 0]%Z)))
             / inject_Z (Z.of_nat (List.length [0; 0]%Z)))%Q
    /\ (0 <= q <= 1)%Q.
Proof.
  apply (accuracy_is_fraction stable_argsort (fitted 1 "euclidean" plane_X plane_y)
           [[1; 1]; [9; 9]]%Q [0; 0] [0; 1]).
  - reflexivity.
  - reflexivity.
  - discriminate.
Defined.

Lemma evaluate_errors_witness :
  (forall e,
     predict stable_argsort (fitted 1 "euclidean" plane_X plane_y)
             [[1; 1]; [9; 9]; [2; 2]]%Q = Raise e ->
     evaluate stable_argsort (fitted 1 "euclidean" plane_X plane_y)
              [[1; 1]; [9; 9]; [2; 2]]%Q [0; 1] = Raise e)
  /\ (forall ps,
        predict stable_argsort (fitted 1 "euclidean" plane_X plane_y)
                [[1; 1]; [9; 9]; [2; 2]]%Q = Ok ps ->
        List.length [[1; 1]; [9; 9]; [2; 2]]%Q <> List.length [0; 1] ->
        List.length [[1; 1]; [9; 9]; [2; 2]]%Q <> 1%nat ->
        List.length [0; 1] <> 1%nat ->
        evaluate stable_argsort (fitted 1 "euclidean" plane_X plane_y)
                 [[1; 1]; [9; 9]; [2; 2]]%Q [0; 1] = Raise (ValueError Broadcast)).
Proof.
  exact (evaluate_errors stable_argsort (fitted 1 "euclidean" plane_X plane_y)
           [[1; 1]; [9; 9]; [2; 2]]%Q [0; 1]).
Defined.

(** Three queries against two labels. *)
Example evaluate_three_against_two :
  evaluate stable_argsort (fitted 1 "euclidean" plane_X plane_y)
           [[1; 1]; [9; 9]; [2; 2]]%Q [0; 1] = Raise (ValueError Broadcast).
Proof. reflexivity. Qed.

Lemma evaluate_single_label_witness :
  evaluate stable_argsort (fitted 1 "euclidean" plane_X plane_y)
           [[1; 1]; [2; 2]; [9; 9]]%Q [0]
  = Ok (Real (Z.of_nat (count 0 [0; 0; 1]) # 1)).
Proof.
  apply (evaluate_single_label stable_argsort (fitted 1 "euclidean" plane_X plane_y)
           [[1; 1]; [2; 2]; [9; 9]]%Q [0; 0; 1] 0).
  reflexivity.
Defined.

(** Three queries against one label: the accuracy is 2. *)
Example evaluate_accuracy_two :
  evaluate stable_argsort (fitted 1 "euclidean" plane_X plane_y)
           [[1; 1]; [2; 2]; [9; 9]]%Q [0] = Ok (Real 2).
Proof. reflexivity. Qed.

Lemma accuracy_one_iff_all_correct_witness :
  is_one (evaluate stable_argsort (fitted 1 "euclidean" plane_X plane_y)
                   [[1; 1]; [9; 9]]%Q [0; 1])
  <-> [0; 1] = [0; 1].
Proof.
  apply (accuracy_one_iff_all_correct stable_argsort
           (fitted 1 "euclidean" plane_X plane_y) [[1; 1]; [9; 9]]%Q [0; 1] [0; 1]).
  - reflexivity.
  - reflexivity.
  - discriminate.
Defined.

Lemma plane_split_usable :
  usable_split {| s_X_train := plane_X; s_X_test := [[1; 1]; [9; 9]]%Q;
                  s_y_train := plane_y; s_y_test := [0; 0] |}.
Proof.
  exists 2%nat. split; [exact plane_valid|]. split; [discriminate|].
  split; [repeat constructor|]. split; [reflexivity | discriminate].
Qed.

Lemma line_split_usable :
  usable_split {| s_X_train := line_X; s_X_test := [[1 # 2]%Q];
                  s_y_train := line_y; s_y_test := [0] |}.
Proof.
  exists 1%nat. split; [exact line_valid|]. split; [discriminate|].
  split; [repeat constructor|]. split; [reflexivity | discriminate].
Qed.

Lemma experiment_succeeds_witness :
  exists model accuracies,
    experiment stable_argsort
      [ {| s_X_train := plane_X; s_X_test := [[1; 1]; [9; 9]]%Q;
           s_y_train := plane_y; s_y_test := [0; 0] |};
        {| s_X_train := line_X; s_X_test := [[1 # 2]%Q];
           s_y_train := line_y; s_y_test := [0] |} ]
    = Ok (model, accuracies)
    /\ List.length accuracies = 2%nat
    /\ Forall (fun a => exists q, a = Real q /\ (0 <= q <= 1)%Q) accuracies.
Proof.
  apply (experiment_succeeds stable_argsort stable_argsort_sorts
           [ {| s_X_train := plane_X; s_X_test := [[1; 1]; [9; 9]]%Q;
                s_y_train := plane_y; s_y_test := [0; 0] |};
             {| s_X_train := line_X; s_X_test := [[1 # 2]%Q];
                s_y_train := line_y; s_y_test := [0] |} ]).
  constructor; [exact plane_split_usable|].
  constructor; [exact line_split_usable | constructor].
Defined.

(** That run, with k = 5 above both training sizes: every query gets the
    majority label of its training part, so the accuracy is 2/2 on the
    first split and 0 on the second; the classifier ends fitted on the
    second split. *)
Example experiment_two_splits :
  experiment stable_argsort
    [ {| s_X_train := plane_X; s_X_test := [[1; 1]; [9; 9]]%Q;
         s_y_train := plane_y; s_y_test := [0; 0] |};
      {| s_X_train := line_X; s_X_test := [[1 # 2]%Q];
         s_y_train := line_y; s_y_test := [0] |} ]
  = Ok (fitted 5 "euclidean" line_X line_y, [Real (2 # 2); Real 0]).
Proof. reflexivity. Qed.
